(** * hlopya: the meeting transcription pipeline of [transcriber.py]

    A shallow embedding of [Transcriber] (echo suppression, per-channel
    speech-to-text with backend fallback, segment merging, transcript
    assembly and persistence) and the properties of it that the
    specification states.

    Conventions of the embedding.
    - A Python [float] timestamp is a rational [Q]: every finite float is a
      dyadic rational and the comparisons the code makes ([<], [>]) are the
      comparisons of their values.  NaN and the infinities are outside the
      model.
    - The audio samples and the RMS arithmetic of [_remove_echo] are real
      numbers [R] (the code needs a square root).
    - A Python [str] is a [string] whose characters are the code points
      0..255.
    - [print] calls are not modelled. *)

From Stdlib Require Import QArith Qround Reals Psatz List String Ascii ZArith.
From Stdlib Require Import DecimalString Sorted Permutation.
From stdpp Require Import base gmap strings.
Import ListNotations.

(** ** Python strings *)

Module PyStr.

(** [str.isspace] on one character, for the code points 0..255: the ASCII
    controls TAB..CR and FS..US, the space, NEL (133) and NBSP (160). *)
Definition isspace (c : ascii) : bool :=
  let n := nat_of_ascii c in
  ((9 <=? n) && (n <=? 13)) || ((28 <=? n) && (n <=? 32))
  || (n =? 133) || (n =? 160).

Fixpoint lstrip (s : string) : string :=
  match s with
  | EmptyString => EmptyString
  | String c s' => if isspace c then lstrip s' else s
  end.

Fixpoint rstrip (s : string) : string :=
  match s with
  | EmptyString => EmptyString
  | String c s' =>
      match rstrip s' with
      | EmptyString => if isspace c then EmptyString else String c EmptyString
      | r => String c r
      end
  end.

(** [s.strip()] *)
Definition strip (s : string) : string := rstrip (lstrip s).

(** Truth value of a string: [bool(s)] is [len(s) > 0]. *)
Definition truthy (s : string) : bool :=
  match s with EmptyString => false | String _ _ => true end.

(** Every character of [s] is white space (so is the empty string). *)
Fixpoint all_space (s : string) : bool :=
  match s with
  | EmptyString => true
  | String c s' => isspace c && all_space s'
  end.

(** [sep.join(parts)] *)
Fixpoint join (sep : string) (parts : list string) : string :=
  match parts with
  | [] => EmptyString
  | [p] => p
  | p :: rest => p +:+ sep +:+ join sep rest
  end.

Definition newline : ascii := ascii_of_nat 10.
Definition nl : string := String newline EmptyString.

(** [c in s] for a character. *)
Fixpoint contains (c : ascii) (s : string) : bool :=
  match s with
  | EmptyString => false
  | String d s' => Ascii.eqb c d || contains c s'
  end.

(** The pieces of [s] between its line feeds: [s.split("\n")]. *)
Fixpoint split_nl (s : string) : list string :=
  match s with
  | EmptyString => [EmptyString]
  | String c s' =>
      if Ascii.eqb c newline then EmptyString :: split_nl s'
      else match split_nl s' with
           | [] => [String c EmptyString]
           | p :: ps => String c p :: ps
           end
  end.

(** The lines of a text whose lines are separated by line feeds: none for
    the empty text, otherwise the pieces between the line feeds. *)
Definition lines (s : string) : list string :=
  match s with
  | EmptyString => []
  | _ => split_nl s
  end.

End PyStr.

(** ** Segments *)

(** The [Segment] dataclass.  [end] is a keyword, hence [end_]. *)
Record Segment : Type := mkSegment {
  speaker : string;
  start : Q;
  end_ : Q;
  text : string;
  language : string
}.

(** [a < b] and [a > b] on timestamps. *)
Definition Qltb (a b : Q) : bool := negb (Qle_bool b a).
Definition Qgtb (a b : Q) : bool := Qltb b a.

(** ** [list.sort(key=...)]

    Python's sort is stable and compares keys with [<] only.  The model
    inserts each element, from the right, in front of the first element
    whose key is not smaller: the stable sorted arrangement, which is
    unique (see [stable_sort_unique]). *)

Section Sort.
Context {A : Type} (key : A -> Q).

Fixpoint insert_by (x : A) (l : list A) : list A :=
  match l with
  | [] => [x]
  | y :: ys => if Qltb (key y) (key x) then y :: insert_by x ys
               else x :: y :: ys
  end.

Fixpoint sort_by (l : list A) : list A :=
  match l with
  | [] => []
  | x :: xs => insert_by x (sort_by xs)
  end.

(** The elements of [l] whose key equals [k], in the order of [l]. *)
Definition with_key (k : Q) (l : list A) : list A :=
  List.filter (fun x => Qeq_bool (key x) k) l.

(** Ascending by key: every element's key is at most that of every later
    element. *)
Definition ascending (l : list A) : Prop :=
  StronglySorted (fun x y => (key x <= key y)%Q) l.

(** [out] is the stable ascending sort of [inp]. *)
Definition stable_sort_of (inp out : list A) : Prop :=
  ascending out /\ forall k, with_key k out = with_key k inp.

End Sort.

(** ** [merge_channels] *)

Definition nonblank (s : Segment) : bool := PyStr.truthy (PyStr.strip (text s)).

Definition merge_channels (mic_segments sys_segments : list Segment)
  : list Segment :=
  let all_segments := mic_segments ++ sys_segments in
  let all_segments := sort_by start all_segments in
  List.filter nonblank all_segments.

(** ** Word grouping: [_group_words_into_segments] *)

(** One entry of NeMo's word time stamps, a dict read with
    [w.get(key, default)]: a missing key is [None] here. *)
Record WordStamp : Type := mkWord {
  w_word : option string;
  w_start : option Q;
  w_end : option Q
}.

Definition get_word (w : WordStamp) : string := default EmptyString (w_word w).
Definition get_start (w : WordStamp) : Q := default 0%Q (w_start w).
Definition get_end (w : WordStamp) : Q := default 0%Q (w_end w).

(** The default of [max_gap]. *)
Definition max_gap_default : Q := 1.5%Q.

(** The segment the loop appends for the words collected so far. *)
Definition word_segment (current_start end_time : Q) (current_words : list string)
  : Segment :=
  mkSegment "" current_start end_time
            (PyStr.strip (PyStr.join " " current_words)) "".

(** The [for i, w in enumerate(word_stamps)] loop, on the words from index
    [i] on; the state is [(segments, current_words, current_start)]. *)
Fixpoint group_loop (max_gap : Q) (word_stamps : list WordStamp)
  (segments : list Segment) (current_words : list string) (current_start : Q)
  : list Segment * list string * Q :=
  match word_stamps with
  | [] => (segments, current_words, current_start)
  | w :: rest =>
      let current_words := current_words ++ [get_word w] in
      match rest with
      | [] => (segments, current_words, current_start)
      | next :: _ =>
          let gap := (get_start next - get_end w)%Q in
          if Qgtb gap max_gap then
            group_loop max_gap rest
              (segments ++ [word_segment current_start (get_end w) current_words])
              [] (get_start next)
          else group_loop max_gap rest segments current_words current_start
      end
  end.

Definition _group_words_into_segments (word_stamps : list WordStamp)
  (max_gap : Q) : list Segment :=
  match word_stamps with
  | [] => []
  | first :: _ =>
      let '(segments, current_words, current_start) :=
        group_loop max_gap word_stamps [] [] (get_start first) in
      match current_words with
      | [] => segments
      | _ =>
          segments ++
          [word_segment current_start
             (get_end (List.last word_stamps first)) current_words]
      end
  end.

(** ** What the speech-to-text engines return *)

(** One entry of NeMo's segment time stamps. *)
Record SegStamp : Type := mkSegStamp {
  ss_start : option Q;
  ss_end : option Q;
  ss_segment : option string
}.

(** [result.timestamp]: the ['segment'] and ['word'] lists (a missing key
    reads as the empty list). *)
Record TimeStamps : Type := mkTimeStamps {
  ts_segment : list SegStamp;
  ts_word : list WordStamp
}.

(** A NeMo hypothesis; [None] is an attribute that is missing or falsy. *)
Record NemoResult : Type := mkNemoResult {
  hyp_timestamp : option TimeStamps;
  hyp_text : option string
}.

(** A faster-whisper segment. *)
Record WhisperSegment : Type := mkWhisperSegment {
  wseg_start : Q;
  wseg_end : Q;
  wseg_text : string
}.

(** The segments [_transcribe_parakeet] builds from the model's output. *)
Definition parakeet_segments (output : list NemoResult) : list Segment :=
  match output with
  | [] => []
  | result :: _ =>
      let segments :=
        match hyp_timestamp result with
        | Some ts =>
            match ts_segment ts with
            | _ :: _ =>
                List.map (fun stamp =>
                       mkSegment "" (default 0%Q (ss_start stamp))
                                 (default 0%Q (ss_end stamp))
                                 (PyStr.strip (default EmptyString (ss_segment stamp)))
                                 "")
                    (ts_segment ts)
            | [] =>
                match ts_word ts with
                | [] => []
                | _ :: _ => _group_words_into_segments (ts_word ts) max_gap_default
                end
            end
        | None => []
        end in
      match segments, hyp_text result with
      | [], Some t =>
          if PyStr.truthy t then [mkSegment "" 0 0 (PyStr.strip t) ""] else []
      | _, _ => segments
      end
  end.

(** The segments [_transcribe_whisper] builds from the model's output. *)
Definition whisper_segments (segments_iter : list WhisperSegment)
  (info_language : string) : list Segment :=
  List.map (fun seg => mkSegment "" (wseg_start seg) (wseg_end seg)
                            (PyStr.strip (wseg_text seg)) info_language)
      segments_iter.

(** ** Transcript assembly *)

(** Round to the nearest integer, ties to even. *)
Definition round_half_even (x : Q) : Z :=
  let f := Qfloor x in
  let r := (x - inject_Z f)%Q in
  if Qltb r (1#2) then f
  else if Qgtb r (1#2) then (f + 1)%Z
  else if Z.even f then f else (f + 1)%Z.

Definition Qabs' (x : Q) : Q := if Qltb x 0 then (- x)%Q else x.

Definition str_of_Z (n : Z) : string := NilZero.string_of_uint (N.to_uint (Z.to_N n)).

(** [f"{x:.1f}"] *)
Definition format_1f (x : Q) : string :=
  let tenths := round_half_even (Qabs' x * 10)%Q in
  (if Qltb x 0 then "-" else "")
  +:+ str_of_Z (tenths / 10) +:+ "." +:+ str_of_Z (tenths mod 10).

(** The body of the loop that builds [lines]. *)
Definition format_line (seg : Segment) : string :=
  let timestamp :=
    if Qgtb (start seg) 0 then "[" +:+ format_1f (start seg) +:+ "s]" else "" in
  "**" +:+ speaker seg +:+ "** " +:+ timestamp +:+ ": " +:+ text seg.

Definition build_lines (merged : list Segment) : list string :=
  fold_left (fun lines seg => lines ++ [format_line seg]) merged [].

(** [max(values, default=d)]: the first greatest value. *)
Definition py_max (d : Q) (values : list Q) : Q :=
  match values with
  | [] => d
  | v :: vs => fold_left (fun m x => if Qgtb x m then x else m) vs v
  end.

(** The [result] dict of [transcribe_meeting]. *)
Record Transcript : Type := mkTranscript {
  segments : list Segment;
  full_text : string;
  plain_text : string;
  me_text : string;
  them_text : string;
  num_segments : nat;
  duration_seconds : Q;
  processing_time : Q;
  model_used : string
}.

(** The part of [transcribe_meeting] after the merge; [elapsed] is the
    difference of the two [time.time()] readings. *)
Definition build_transcript (primary : string) (elapsed : Q)
  (merged : list Segment) : Transcript :=
  let lines := build_lines merged in
  let full_text := PyStr.join PyStr.nl lines in
  {| segments := merged;
     full_text := full_text;
     plain_text := PyStr.join " " (List.map text merged);
     me_text :=
       PyStr.join " "
         (List.map text (List.filter (fun s => String.eqb (speaker s) "Me") merged));
     them_text :=
       PyStr.join " "
         (List.map text (List.filter (fun s => String.eqb (speaker s) "Them") merged));
     num_segments := length merged;
     duration_seconds := py_max 0 (List.map end_ merged);
     processing_time := elapsed;
     model_used := primary |}.

(** The markdown text [save_transcript] writes. *)
Definition markdown_parts (result : Transcript) : list string :=
  [ "# Meeting Transcript" +:+ PyStr.nl +:+ PyStr.nl;
    "- Model: " +:+ model_used result +:+ PyStr.nl;
    "- Segments: " +:+ str_of_Z (Z.of_nat (num_segments result)) +:+ PyStr.nl;
    "- Processing time: " +:+ format_1f (processing_time result) +:+ "s"
       +:+ PyStr.nl +:+ PyStr.nl;
    "---" +:+ PyStr.nl +:+ PyStr.nl;
    full_text result ].

(** ** Echo suppression: the signal processing of [_remove_echo] *)

Module Echo.
Local Open Scope R_scope.

(** [x > y] on real numbers. *)
Definition Rgtb (x y : R) : bool := if Rlt_dec y x then true else false.

(** [np.mean] *)
Definition mean (l : list R) : R := fold_right Rplus 0 l / INR (length l).

(** [np.sqrt(np.mean(frame ** 2))] *)
Definition rms (frame : list R) : R := sqrt (mean (List.map (fun x => x * x) frame)).

(** [data[a:b]] *)
Definition slice {A : Type} (a b : nat) (data : list A) : list A :=
  firstn (b - a) (skipn a data).

(** [int(mic_sr * 0.030)] for a positive integer sample rate: the float
    product truncates to the integer part of [mic_sr * 30 / 1000]. *)
Definition frame_size_of (mic_sr : Z) : nat := Z.to_nat (mic_sr * 30 / 1000).

(** The RMS of each of the first [num_frames] frames. *)
Definition frame_rms (frame_size num_frames : nat) (data : list R) : list R :=
  List.map (fun i => rms (slice (i * frame_size) (i * frame_size + frame_size) data))
      (seq 0 num_frames).

Fixpoint insert_sorted (x : R) (l : list R) : list R :=
  match l with
  | [] => [x]
  | y :: ys => if Rgtb x y then y :: insert_sorted x ys else x :: y :: ys
  end.

Definition sorted (l : list R) : list R := fold_right insert_sorted [] l.

(** [np.median] of a non-empty array. *)
Definition median (l : list R) : R :=
  let s := sorted l in
  let n := length s in
  if Nat.even n then (nth (n / 2 - 1) s 0 + nth (n / 2) s 0) / 2
  else nth (n / 2) s 0.

(** [np.median(sys_rms[sys_rms > 0]) if np.any(sys_rms > 0) else 0.001] *)
Definition sys_median_of (sys_rms : list R) : R :=
  if existsb (fun x => Rgtb x 0) sys_rms
  then median (List.filter (fun x => Rgtb x 0) sys_rms)
  else 0.001.

Definition sys_threshold_of (sys_median : R) : R := Rmax (sys_median * 0.5) 0.003.

(** [max(0.05, 1.0 - min(ratio * 0.8, 0.95))] *)
Definition attenuation (ratio : R) : R := Rmax 0.05 (1.0 - Rmin (ratio * 0.8) 0.95).

(** The two tests of the gating loop on one frame: the attenuation to
    apply when the frame is gated, [None] when it is left alone. *)
Definition gate (sys_rms_i mic_rms_i sys_threshold : R) : option R :=
  if Rgtb sys_rms_i sys_threshold then
    let ratio := sys_rms_i / Rmax mic_rms_i 1e-6 in
    if Rgtb ratio 0.3 then Some (attenuation ratio) else None
  else None.

(** [cleaned[a:b] *= k] *)
Definition scale_slice (a b : nat) (k : R) (cleaned : list R) : list R :=
  firstn a cleaned ++ List.map (fun x => x * k) (slice a b cleaned) ++ skipn b cleaned.

(** One iteration of the gating loop on [(cleaned, suppressed_frames)]. *)
Definition gate_step (frame_size : nat) (mic_rms sys_rms : list R)
  (sys_threshold : R) (st : list R * nat) (i : nat) : list R * nat :=
  let '(cleaned, suppressed_frames) := st in
  match gate (nth i sys_rms 0) (nth i mic_rms 0) sys_threshold with
  | Some k =>
      (scale_slice (i * frame_size) (i * frame_size + frame_size) k cleaned,
       S suppressed_frames)
  | None => st
  end.

Record Cleaned : Type := mkCleaned {
  cleaned : list R;
  suppressed_frames : nat;
  num_frames : nat;
  sys_threshold : R;
  sys_median : R
}.

(** [_remove_echo] on the two mono sample arrays; [None] is the
    [ZeroDivisionError] of [len(mic_data) // frame_size]. *)
Definition remove_echo (mic_data sys_data : list R) (mic_sr : Z) : option Cleaned :=
  let min_len := Nat.min (length mic_data) (length sys_data) in
  let mic_data := firstn min_len mic_data in
  let sys_data := firstn min_len sys_data in
  let frame_size := frame_size_of mic_sr in
  if Nat.eqb frame_size 0 then None
  else
    let num_frames := Nat.div (length mic_data) frame_size in
    let mic_rms := frame_rms frame_size num_frames mic_data in
    let sys_rms := frame_rms frame_size num_frames sys_data in
    let sys_median := sys_median_of sys_rms in
    let sys_threshold := sys_threshold_of sys_median in
    let '(cleaned, suppressed_frames) :=
      fold_left (gate_step frame_size mic_rms sys_rms sys_threshold)
                (seq 0 num_frames) (mic_data, O) in
    Some (mkCleaned cleaned suppressed_frames num_frames sys_threshold sys_median).

End Echo.

(** The whole markdown text: the parts in the order they are written. *)
Definition markdown_text (result : Transcript) : string :=
  PyStr.join "" (markdown_parts result).

(** ** Paths

    Paths are taken in [pathlib]'s normal form (single separators, no
    trailing separator), so that [Path(p)] is [p]. *)

Module PyPath.

(** [s.rpartition(c)]: the text before and after the last [c]. *)
Fixpoint rsplit (c : ascii) (s : string) : option (string * string) :=
  match s with
  | EmptyString => None
  | String d s' =>
      match rsplit c s' with
      | Some (a, b) => Some (String d a, b)
      | None => if Ascii.eqb d c then Some (EmptyString, s') else None
      end
  end.

(** [str(Path(p).parent)] *)
Definition parent (p : string) : string :=
  match rsplit "/" p with
  | None => "."
  | Some (EmptyString, _) => "/"
  | Some (a, _) => a
  end.

(** The directory part of [p], with its separator, and the final name. *)
Definition split_name (p : string) : string * string :=
  match rsplit "/" p with
  | None => (EmptyString, p)
  | Some (a, b) => (a +:+ "/", b)
  end.

(** The final name without its suffix. *)
Definition stem (name : string) : string :=
  match rsplit "." name with
  | Some (a, b) => if PyStr.truthy a && PyStr.truthy b then a else name
  | None => name
  end.

(** [Path(p).with_suffix(suffix)]; [None] is the [ValueError] for a path
    with an empty name. *)
Definition with_suffix (p suffix : string) : option string :=
  let '(dir, name) := split_name p in
  if PyStr.truthy name then Some (dir +:+ stem name +:+ suffix) else None.

End PyPath.

(** ** Effects: exceptions, files and the engines *)

(** A raised exception, by the classes the code's handlers tell apart:
    [OSError] (a subclass of [Exception]), the other subclasses of
    [Exception], and what lies outside [Exception] ([KeyboardInterrupt],
    [SystemExit]). *)
Inductive PyError : Type :=
| OSError (msg : string)
| Exception (msg : string)
| BaseException (msg : string).

(** [except Exception] *)
Definition is_Exception (e : PyError) : bool :=
  match e with BaseException _ => false | _ => true end.

(** [except OSError] *)
Definition is_OSError (e : PyError) : bool :=
  match e with OSError _ => true | _ => false end.

Inductive Outcome (A : Type) : Type :=
| Return (a : A)
| Raise (e : PyError).
Arguments Return {A} a.
Arguments Raise {A} e.

(** The outcome with [f] applied to a returned value. *)
Definition outcome_map {A B : Type} (f : A -> B) (o : Outcome A) : Outcome B :=
  match o with
  | Return a => Return (f a)
  | Raise e => Raise e
  end.

(** What [sf.read] returns: a 1-D array for a mono file, a 2-D array (one
    row per frame) otherwise. *)
Inductive AudioData : Type :=
| Mono (samples : list R)
| Multi (rows : list (list R)).

(** [data[:, 0] if data.ndim > 1 else data] *)
Definition first_channel (data : AudioData) : list R :=
  match data with
  | Mono samples => samples
  | Multi rows => List.map (fun row => nth 0 row 0%R) rows
  end.

Inductive Content : Type :=
| Audio (sr : Z) (data : AudioData)
| Text (s : string).

Inductive Backend : Type := Parakeet | Whisper.

(** The file system and the trace of the engine calls made so far. *)
Record World : Type := mkWorld {
  files : gmap string Content;
  calls : list (Backend * string)
}.

Definition set_files (f : gmap string Content -> gmap string Content)
  (w : World) : World :=
  mkWorld (f (files w)) (calls w).

(** What the code does not decide: the engines' answers (a raised
    exception covers a failing model load), the name
    [tempfile.mktemp(suffix=..., dir=...)] picks given the files present
    ([mktemp files suffix dir]), which file operations the system refuses,
    and the text [json.dump] produces. *)
Record Env : Type := mkEnv {
  parakeet_engine : string -> Outcome (list NemoResult);
  whisper_engine : string -> Outcome (list WhisperSegment * string);
  mktemp : gmap string Content -> string -> string -> string;
  open_denied : string -> bool;
  write_denied : string -> bool;
  unlink_denied : string -> bool;
  json_dumps : Transcript -> string
}.

(** Computations that read and change the world and may raise. *)
Definition M (A : Type) : Type := World -> Outcome A * World.

Definition ret {A : Type} (a : A) : M A := fun w => (Return a, w).

Definition raise {A : Type} (e : PyError) : M A := fun w => (Raise e, w).

Definition bind {A B : Type} (m : M A) (k : A -> M B) : M B :=
  fun w =>
    match m w with
    | (Return a, w') => k a w'
    | (Raise e, w') => (Raise e, w')
    end.

Notation "x <- c1 ;; c2" := (bind c1 (fun x => c2))
  (at level 100, c1 at next level, right associativity).
Notation "c1 ;;; c2" := (bind c1 (fun _ => c2))
  (at level 100, right associativity).

(** [try: body  except <class> as e: handler(e)] *)
Definition try_except {A : Type} (body : M A) (catches : PyError -> bool)
  (handler : PyError -> M A) : M A :=
  fun w =>
    match body w with
    | (Raise e, w') => if catches e then handler e w' else (Raise e, w')
    | r => r
    end.

(** [for x in xs: body(x)] *)
Fixpoint for_each {A : Type} (xs : list A) (body : A -> M unit) : M unit :=
  match xs with
  | [] => ret tt
  | x :: xs' => body x ;;; for_each xs' body
  end.

Definition set_speaker (label : string) (seg : Segment) : Segment :=
  mkSegment label (start seg) (end_ seg) (text seg) (language seg).

Section Pipeline.
Context (env : Env).

(** A call of an engine on a path: recorded in the trace, answered by the
    environment. *)
Definition engine_call {A : Type} (b : Backend) (audio_path : string)
  (answer : Outcome A) : M A :=
  fun w => (answer, mkWorld (files w) (calls w ++ [(b, audio_path)])).

Definition _transcribe_parakeet (audio_path : string) : M (list Segment) :=
  output <- engine_call Parakeet audio_path (parakeet_engine env audio_path) ;;
  ret (parakeet_segments output).

Definition _transcribe_whisper (audio_path : string) : M (list Segment) :=
  r <- engine_call Whisper audio_path (whisper_engine env audio_path) ;;
  ret (whisper_segments (fst r) (snd r)).

Definition transcribe_channel (primary audio_path speaker : string)
  : M (list Segment) :=
  segments <-
    (if String.eqb primary "parakeet" then
       try_except (_transcribe_parakeet audio_path) is_Exception
                  (fun _ => _transcribe_whisper audio_path)
     else if String.eqb primary "whisper" then _transcribe_whisper audio_path
     else _transcribe_whisper audio_path) ;;
  ret (List.map (set_speaker speaker) segments).

(** [sf.read(path)] *)
Definition sf_read (path : string) : M (AudioData * Z) :=
  fun w =>
    match files w !! path with
    | Some (Audio sr data) => (Return (data, sr), w)
    | _ => (Raise (Exception "LibsndfileError"), w)
    end.

(** [sf.write(path, data, sr)] *)
Definition sf_write (path : string) (data : list R) (sr : Z) : M unit :=
  fun w =>
    if open_denied env path || write_denied env path
    then (Raise (Exception "LibsndfileError"), w)
    else (Return tt, set_files <[path := Audio sr (Mono data)]> w).

Definition _remove_echo (mic_path sys_path : string) : M string :=
  mic <- sf_read mic_path ;;
  sys <- sf_read sys_path ;;
  match Echo.remove_echo (first_channel (fst mic)) (first_channel (fst sys))
                         (snd mic) with
  | None => raise (Exception "ZeroDivisionError")
  | Some r =>
      fun w =>
        let clean_path := mktemp env (files w) "_clean.wav" (PyPath.parent mic_path) in
        (sf_write clean_path (Echo.cleaned r) (snd mic) ;;; ret clean_path) w
  end.

(** [os.unlink(path)] *)
Definition os_unlink (path : string) : M unit :=
  fun w =>
    match files w !! path with
    | None => (Raise (OSError "FileNotFoundError"), w)
    | Some _ =>
        if unlink_denied env path then (Raise (OSError "PermissionError"), w)
        else (Return tt, set_files (delete path) w)
    end.

Definition transcribe_meeting (primary : string) (elapsed : Q)
  (mic_path sys_path : string) : M Transcript :=
  clean_mic_path <-
    try_except (_remove_echo mic_path sys_path) is_Exception
               (fun _ => ret mic_path) ;;
  mic_segments <- transcribe_channel primary clean_mic_path "Me" ;;
  sys_segments <- transcribe_channel primary sys_path "Them" ;;
  (if negb (String.eqb clean_mic_path mic_path) then
     try_except (os_unlink clean_mic_path) is_OSError (fun _ => ret tt)
   else ret tt) ;;;
  let merged := merge_channels mic_segments sys_segments in
  ret (build_transcript primary elapsed merged).

(** [open(path, "w")]: the file is created or emptied. *)
Definition open_w (path : string) : M unit :=
  fun w =>
    if open_denied env path then (Raise (OSError "PermissionError"), w)
    else (Return tt, set_files <[path := Text ""]> w).

Definition text_of (c : option Content) : string :=
  match c with Some (Text s) => s | _ => "" end.

(** [f.write(s)] on the file opened at [path]. *)
Definition f_write (path s : string) : M unit :=
  fun w =>
    if write_denied env path then (Raise (OSError "ENOSPC"), w)
    else (Return tt, set_files <[path := Text (text_of (files w !! path) +:+ s)]> w).

Definition path_with_suffix (p suffix : string) : M string :=
  match PyPath.with_suffix p suffix with
  | Some q => ret q
  | None => raise (Exception "ValueError")
  end.

Definition save_transcript (result : Transcript) (output_path : string) : M unit :=
  json_path <- path_with_suffix output_path ".json" ;;
  open_w json_path ;;;
  f_write json_path (json_dumps env result) ;;;
  md_path <- path_with_suffix output_path ".md" ;;
  open_w md_path ;;;
  for_each (markdown_parts result) (f_write md_path).

End Pipeline.

(** ** The command line: [cli] of transcriber.py *)

(** [pathlib.PurePosixPath]: a path is its root and the names after it. *)
Module Path.

(** [s.split(c)] *)
Fixpoint split (c : ascii) (s : string) : list string :=
  match s with
  | EmptyString => [EmptyString]
  | String d s' =>
      if Ascii.eqb d c then EmptyString :: split c s'
      else match split c s' with
           | [] => [String d EmptyString]
           | p :: ps => String d p :: ps
           end
  end.

(** [part.lstrip("/")] *)
Fixpoint lstrip_sep (part : string) : string :=
  match part with
  | String c rest => if Ascii.eqb c "/" then lstrip_sep rest else part
  | EmptyString => EmptyString
  end.

(** [splitroot]: exactly two leading slashes are a root of their own. *)
Definition splitroot (part : string) : string * string :=
  match part with
  | String c _ =>
      if Ascii.eqb c "/" then
        let stripped_part := lstrip_sep part in
        if Nat.eqb (String.length part - String.length stripped_part) 2
        then ("//", stripped_part) else ("/", stripped_part)
      else (EmptyString, part)
  | EmptyString => (EmptyString, part)
  end.

Record t : Type := mk { root : string; parts : list string }.

(** [Path(s)]: empty names and "." are dropped. *)
Definition of_str (s : string) : t :=
  let '(root, rel) := splitroot s in
  mk root (List.filter (fun x => PyStr.truthy x && negb (String.eqb x "."))
                       (split "/" rel)).

(** [p / key]: a key with a root replaces [p]. *)
Definition div (p : t) (key : string) : t :=
  let q := of_str key in
  if PyStr.truthy (root q) then q else mk (root p) (parts p ++ parts q).

(** [str(p)] *)
Definition str (p : t) : string :=
  match root p +:+ PyStr.join "/" (parts p) with
  | EmptyString => "."
  | s => s
  end.

End Path.

Section Cli.
Context (env : Env).

(** [path.exists()] *)
Definition path_exists (path : Path.t) : M bool :=
  fun w =>
    (Return (match files w !! Path.str path with Some _ => true | None => false end),
     w).

(** [sys.exit(1)]: a [SystemExit], which is no [Exception]. *)
Definition sys_exit {A : Type} : M A := raise (BaseException "SystemExit(1)").

(** [cli()] on [sys.argv].  [primary] is the primary model of the
    [Transcriber] made from the configuration file, the reading of which
    is not modelled, and [elapsed] the time [transcribe_meeting] measures. *)
Definition cli (argv : list string) (primary : string) (elapsed : Q) : M unit :=
  match argv with
  | _ :: arg :: _ =>
      let session_dir := Path.of_str arg in
      let mic_path := Path.div session_dir "mic.wav" in
      let sys_path := Path.div session_dir "system.wav" in
      mic_exists <- path_exists mic_path ;;
      sys_exists <- path_exists sys_path ;;
      if negb mic_exists || negb sys_exists then sys_exit
      else
        result <- transcribe_meeting env primary elapsed
                    (Path.str mic_path) (Path.str sys_path) ;;
        save_transcript env result (Path.str (Path.div session_dir "transcript"))
  | _ => sys_exit
  end.

End Cli.

(** Vocabulary of the statements about paths: a directory prefix is empty
    or ends with the separator; [dirs] writes each name with its separator. *)
Definition is_dir_prefix (pre : string) : Prop :=
  pre = EmptyString \/ exists a, pre = a +:+ "/".

Definition dirs (names : list string) : string :=
  fold_right (fun x acc => x +:+ "/" +:+ acc) EmptyString names.

(** ** Lazy loading of the models: [_load_parakeet], [_load_whisper]

    The cache of one [Transcriber] and the constructor calls made so far.
    Here the loading is looked at on its own; in the pipeline above a
    failing load is one way for an engine to raise. *)

(** A NeMo model object, and whether a call of [change_attention_model] on
    it has returned. *)
Record ParakeetModel : Type := mkParakeetModel {
  pm_name : string;
  pm_local_attention : bool
}.

Record WhisperModel : Type := mkWhisperModel {
  wm_size : string;
  wm_device : string;
  wm_compute_type : string
}.

Inductive LoadCall : Type :=
| FromPretrained (model_name : string)
| ChangeAttentionModel
| NewWhisperModel (size device compute_type : string).

(** The fields of [Transcriber] the loaders read and write. *)
Record Loaders : Type := mkLoaders {
  parakeet_model : string;
  whisper_model : string;
  whisper_device : string;
  whisper_compute : string;
  _parakeet_model : option ParakeetModel;
  _whisper_model : option WhisperModel;
  load_calls : list LoadCall
}.

(** Whether each constructor call returns or raises (the import of the
    library is part of the call). *)
Record LoadEnv : Type := mkLoadEnv {
  from_pretrained : string -> Outcome unit;
  change_attention_model : Outcome unit;
  new_whisper_model : string -> string -> string -> Outcome unit
}.

Section Loading.
Context (lenv : LoadEnv).

Definition _load_parakeet (self : Loaders) : Outcome ParakeetModel * Loaders :=
  match _parakeet_model self with
  | Some model => (Return model, self)
  | None =>
      let called := load_calls self ++ [FromPretrained (parakeet_model self)] in
      match from_pretrained lenv (parakeet_model self) with
      | Raise e =>
          (Raise e,
           mkLoaders (parakeet_model self) (whisper_model self) (whisper_device self)
                     (whisper_compute self) None (_whisper_model self) called)
      | Return _ =>
          let called := called ++ [ChangeAttentionModel] in
          match change_attention_model lenv with
          | Raise e =>
              (Raise e,
               mkLoaders (parakeet_model self) (whisper_model self)
                         (whisper_device self) (whisper_compute self)
                         (Some (mkParakeetModel (parakeet_model self) false))
                         (_whisper_model self) called)
          | Return _ =>
              let model := mkParakeetModel (parakeet_model self) true in
              (Return model,
               mkLoaders (parakeet_model self) (whisper_model self)
                         (whisper_device self) (whisper_compute self)
                         (Some model) (_whisper_model self) called)
          end
      end
  end.

Definition _load_whisper (self : Loaders) : Outcome WhisperModel * Loaders :=
  match _whisper_model self with
  | Some model => (Return model, self)
  | None =>
      let called :=
        load_calls self
        ++ [NewWhisperModel (whisper_model self) (whisper_device self)
                            (whisper_compute self)] in
      match new_whisper_model lenv (whisper_model self) (whisper_device self)
                              (whisper_compute self) with
      | Raise e =>
          (Raise e,
           mkLoaders (parakeet_model self) (whisper_model self) (whisper_device self)
                     (whisper_compute self) (_parakeet_model self) None called)
      | Return _ =>
          let model := mkWhisperModel (whisper_model self) (whisper_device self)
                                      (whisper_compute self) in
          (Return model,
           mkLoaders (parakeet_model self) (whisper_model self) (whisper_device self)
                     (whisper_compute self) (_parakeet_model self) (Some model) called)
      end
  end.

End Loading.

(** ** Vocabulary of the statements about word grouping *)

(** The gap between a word and the next one. *)
Definition gap (w next : WordStamp) : Q := (get_start next - get_end w)%Q.



(** The segment of a group of words: from the start of its first word to
    the end of its last word, the words joined by spaces and stripped. *)
Definition group_segment (g : list WordStamp) : Segment :=
  match g with
  | [] => mkSegment "" 0 0 "" ""
  | first :: _ =>
      mkSegment "" (get_start first) (get_end (List.last g first))
                (PyStr.strip (PyStr.join " " (List.map get_word g))) ""
  end.

(** The groups of a word list: cut after every word followed by a pause. *)
Fixpoint chunks (max_gap : Q) (ws : list WordStamp) : list (list WordStamp) :=
  match ws with
  | [] => []
  | w :: rest =>
      match rest with
      | [] => [[w]]
      | next :: _ =>
          if Qgtb (gap w next) max_gap then [w] :: chunks max_gap rest
          else match chunks max_gap rest with
               | [] => [[w]]
               | c :: cs => (w :: c) :: cs
               end
      end
  end.


(** * Properties *)

(** ** Comparisons of timestamps *)

Lemma Qltb_lt (a b : Q) : Qltb a b = true <-> (a < b)%Q.
Proof.
  unfold Qltb. rewrite negb_true_iff. split; intros H.
  - apply Qnot_le_lt. intros Hle. apply Qle_bool_iff in Hle. congruence.
  - destruct (Qle_bool b a) eqn:E; [|reflexivity].
    apply Qle_bool_iff in E. exfalso. apply (Qlt_not_le _ _ H). exact E.
Qed.

Lemma Qltb_ge (a b : Q) : Qltb a b = false <-> (b <= a)%Q.
Proof.
  unfold Qltb. rewrite negb_false_iff. apply Qle_bool_iff.
Qed.

Lemma Qgtb_gt (a b : Q) : Qgtb a b = true <-> (b < a)%Q.
Proof. apply Qltb_lt. Qed.

Lemma Qgtb_le (a b : Q) : Qgtb a b = false <-> (a <= b)%Q.
Proof. apply Qltb_ge. Qed.

(** ** The sort *)

Section SortFacts.
Context {A : Type} (key : A -> Q).

Lemma with_key_app (k : Q) (l1 l2 : list A) :
  with_key key k (l1 ++ l2) = with_key key k l1 ++ with_key key k l2.
Proof. unfold with_key. apply List.filter_app. Qed.

Lemma with_key_insert_by (k : Q) (x : A) (l : list A) :
  with_key key k (insert_by key x l) = with_key key k (x :: l).
Proof.
  induction l as [|y ys IH]; [reflexivity|].
  simpl. destruct (Qltb (key y) (key x)) eqn:Hlt; [|reflexivity].
  apply Qltb_lt in Hlt.
  unfold with_key in *. simpl in *. rewrite IH.
  destruct (Qeq_bool (key x) k) eqn:Hx; [|reflexivity].
  destruct (Qeq_bool (key y) k) eqn:Hy; [|reflexivity].
  apply Qeq_bool_iff in Hx, Hy. exfalso.
  rewrite Hx, Hy in Hlt. exact (Qlt_irrefl _ Hlt).
Qed.

(** Stability: the sort keeps the order of the elements of each key. *)
Lemma with_key_sort_by (k : Q) (l : list A) :
  with_key key k (sort_by key l) = with_key key k l.
Proof.
  induction l as [|x xs IH]; [reflexivity|].
  simpl. rewrite with_key_insert_by. unfold with_key in *. simpl.
  now rewrite IH.
Qed.

Lemma insert_by_In (x y : A) (l : list A) :
  In y (insert_by key x l) <-> y = x \/ In y l.
Proof.
  induction l as [|z zs IH]; simpl.
  - intuition.
  - destruct (Qltb (key z) (key x)); simpl; rewrite ?IH; intuition.
Qed.

Lemma insert_by_ascending (x : A) (l : list A) :
  ascending key l -> ascending key (insert_by key x l).
Proof.
  unfold ascending. induction l as [|y ys IH]; intros Hs; simpl.
  - constructor; constructor.
  - inversion Hs as [|? ? Hys Hall]; subst.
    destruct (Qltb (key y) (key x)) eqn:Hlt.
    + apply Qltb_lt in Hlt. constructor; [now apply IH|].
      apply List.Forall_forall. intros z Hz. apply insert_by_In in Hz.
      destruct Hz as [->|Hz]; [now apply Qlt_le_weak|].
      rewrite List.Forall_forall in Hall. now apply Hall.
    + apply Qltb_ge in Hlt. constructor; [exact Hs|].
      constructor; [exact Hlt|].
      rewrite List.Forall_forall in *. intros z Hz.
      eapply Qle_trans; [exact Hlt|now apply Hall].
Qed.

Lemma sort_by_ascending (l : list A) : ascending key (sort_by key l).
Proof.
  induction l as [|x xs IH]; simpl.
  - constructor.
  - now apply insert_by_ascending.
Qed.

Lemma insert_by_perm (x : A) (l : list A) : Permutation (insert_by key x l) (x :: l).
Proof.
  induction l as [|y ys IH]; simpl; [reflexivity|].
  destruct (Qltb (key y) (key x)); [|reflexivity].
  rewrite IH. apply perm_swap.
Qed.

Lemma sort_by_perm (l : list A) : Permutation (sort_by key l) l.
Proof.
  induction l as [|x xs IH]; simpl; [reflexivity|].
  rewrite insert_by_perm. now constructor.
Qed.

Lemma sort_by_stable (l : list A) : stable_sort_of key l (sort_by key l).
Proof. split; [apply sort_by_ascending|intros k; apply with_key_sort_by]. Qed.

Lemma ascending_filter (p : A -> bool) (l : list A) :
  ascending key l -> ascending key (List.filter p l).
Proof.
  unfold ascending. induction 1 as [|x xs Hs IH Hall]; simpl; [constructor|].
  destruct (p x); [|exact IH].
  constructor; [exact IH|].
  rewrite List.Forall_forall in *. intros y Hy. apply List.filter_In in Hy.
  apply Hall, Hy.
Qed.

Lemma with_key_filter (p : A -> bool) (k : Q) (l : list A) :
  with_key key k (List.filter p l) = List.filter p (with_key key k l).
Proof.
  unfold with_key. induction l as [|x xs IH]; simpl; [reflexivity|].
  destruct (p x) eqn:Hp, (Qeq_bool (key x) k) eqn:Hk; simpl;
    rewrite ?Hp, ?Hk, IH; reflexivity.
Qed.

Lemma with_key_self_In (x : A) (l : list A) : In x l -> In x (with_key key (key x) l).
Proof.
  intros H. apply List.filter_In. split; [exact H|].
  apply Qeq_bool_iff. reflexivity.
Qed.

(** Two ascending lists with the same elements of each key, in the same
    order, are the same list: the stable sort of a list is unique. *)
Lemma ascending_with_key_unique (l1 l2 : list A) :
  ascending key l1 -> ascending key l2 ->
  (forall k, with_key key k l1 = with_key key k l2) -> l1 = l2.
Proof.
  revert l2. induction l1 as [|x xs IH]; intros l2 H1 H2 Hk.
  - destruct l2 as [|y ys]; [reflexivity|].
    specialize (Hk (key y)). unfold with_key in Hk. simpl in Hk.
    replace (Qeq_bool (key y) (key y)) with true in Hk
      by (symmetry; apply Qeq_bool_iff; reflexivity).
    discriminate.
  - destruct l2 as [|y ys].
    + specialize (Hk (key x)). unfold with_key in Hk. simpl in Hk.
      replace (Qeq_bool (key x) (key x)) with true in Hk
        by (symmetry; apply Qeq_bool_iff; reflexivity).
      discriminate.
    + inversion H1 as [|? ? H1s H1a]; inversion H2 as [|? ? H2s H2a]; subst.
      rewrite List.Forall_forall in H1a, H2a.
      assert (Hxy : (key x == key y)%Q).
      { apply Qle_antisym.
        - assert (Hin : In y (with_key key (key y) (x :: xs))).
          { rewrite Hk. apply with_key_self_In. now left. }
          apply List.filter_In in Hin. destruct Hin as [[->|Hin] _];
            [apply Qle_refl|now apply H1a].
        - assert (Hin : In x (with_key key (key x) (y :: ys))).
          { rewrite <- Hk. apply with_key_self_In. now left. }
          apply List.filter_In in Hin. destruct Hin as [[->|Hin] _];
            [apply Qle_refl|now apply H2a]. }
      assert (Heq : x = y).
      { specialize (Hk (key x)). unfold with_key in Hk. simpl in Hk.
        replace (Qeq_bool (key x) (key x)) with true in Hk
          by (symmetry; apply Qeq_bool_iff; reflexivity).
        replace (Qeq_bool (key y) (key x)) with true in Hk
          by (symmetry; apply Qeq_bool_iff; now symmetry).
        congruence. }
      subst y. f_equal. apply IH; [exact H1s|exact H2s|].
      intros k. specialize (Hk k). unfold with_key in *. simpl in Hk.
      destruct (Qeq_bool (key x) k); congruence.
Qed.

Lemma stable_sort_unique (inp out1 out2 : list A) :
  stable_sort_of key inp out1 -> stable_sort_of key inp out2 -> out1 = out2.
Proof.
  intros [Ha1 Hk1] [Ha2 Hk2]. apply ascending_with_key_unique; [assumption..|].
  intros k. now rewrite Hk1, Hk2.
Qed.

(** In an ascending list an element with a strictly smaller key stands at
    a smaller index. *)
Lemma ascending_lookup_lt (l : list A) (i j : nat) (a b : A) :
  ascending key l -> nth_error l i = Some a -> nth_error l j = Some b ->
  (key a < key b)%Q -> (i < j)%nat.
Proof.
  unfold ascending. intros Hs. revert i j.
  induction Hs as [|x xs Hs IH Hall]; intros i j Hi Hj Hlt.
  - destruct i; discriminate.
  - rewrite List.Forall_forall in Hall.
    destruct i as [|i], j as [|j]; simpl in *.
    + injection Hi as ->. injection Hj as ->.
      exfalso. exact (Qlt_irrefl _ Hlt).
    + lia.
    + injection Hj as ->. apply List.nth_error_In in Hi. apply Hall in Hi.
      exfalso. apply (Qlt_not_le _ _ Hlt). exact Hi.
    + apply ->Nat.succ_lt_mono. eapply IH; eauto.
Qed.

End SortFacts.

(** ** Stripping *)

Lemma lstrip_empty_iff (s : string) :
  PyStr.lstrip s = EmptyString <-> PyStr.all_space s = true.
Proof.
  induction s as [|c s IH]; simpl; [tauto|].
  destruct (PyStr.isspace c); simpl; [exact IH|].
  split; discriminate.
Qed.

Lemma lstrip_head (s : string) (c : ascii) (r : string) :
  PyStr.lstrip s = String c r -> PyStr.isspace c = false.
Proof.
  induction s as [|d s IH]; simpl; [discriminate|].
  destruct (PyStr.isspace d) eqn:Hd; [exact IH|].
  intros H. injection H as <- _. exact Hd.
Qed.

Lemma rstrip_head_kept (c : ascii) (s : string) :
  PyStr.isspace c = false -> PyStr.rstrip (String c s) <> EmptyString.
Proof.
  intros Hc. simpl. destruct (PyStr.rstrip s); [rewrite Hc|]; discriminate.
Qed.

(** [s.strip()] is empty exactly when [s] is empty or white space only. *)
Lemma strip_empty_iff (s : string) :
  PyStr.strip s = EmptyString <-> PyStr.all_space s = true.
Proof.
  unfold PyStr.strip. rewrite <- lstrip_empty_iff.
  destruct (PyStr.lstrip s) as [|c r] eqn:E; [simpl; tauto|].
  split; [|discriminate].
  intros H. exfalso. revert H. apply rstrip_head_kept.
  eapply lstrip_head, E.
Qed.

Lemma nonblank_true (s : Segment) :
  nonblank s = true <->
  PyStr.strip (text s) <> EmptyString /\ PyStr.all_space (text s) = false.
Proof.
  unfold nonblank. pose proof (strip_empty_iff (text s)) as Hs.
  destruct (PyStr.strip (text s)) eqn:E; simpl.
  - split; [discriminate|]. intros [H _]. now contradiction H.
  - split; [|reflexivity]. intros _. split; [discriminate|].
    destruct (PyStr.all_space (text s)); [|reflexivity].
    destruct Hs as [_ Hs]. now discriminate Hs.
Qed.

Lemma filter_perm {A : Type} (p : A -> bool) (l l' : list A) :
  Permutation l l' -> Permutation (List.filter p l) (List.filter p l').
Proof.
  induction 1 as [|x l l' _ IH|x y l|l l' l'' _ IH1 _ IH2]; simpl.
  - constructor.
  - destruct (p x); [now constructor|exact IH].
  - destruct (p x), (p y); try reflexivity. apply perm_swap.
  - now transitivity (List.filter p l').
Qed.

(** ** [merge_channels] *)

(** The merged list is the stable sort of the concatenation, filtered. *)
Lemma merge_channels_eq (mic sys : list Segment) :
  merge_channels mic sys = List.filter nonblank (sort_by start (mic ++ sys)).
Proof. reflexivity. Qed.

Lemma merge_channels_stable (mic sys : list Segment) :
  stable_sort_of start (List.filter nonblank (mic ++ sys)) (merge_channels mic sys).
Proof.
  rewrite merge_channels_eq. split.
  - apply ascending_filter, sort_by_ascending.
  - intros k. rewrite !with_key_filter, with_key_sort_by. reflexivity.
Qed.

Lemma merge_channels_In (mic sys : list Segment) (s : Segment) :
  In s (merge_channels mic sys) <-> (In s mic \/ In s sys) /\ nonblank s = true.
Proof.
  rewrite merge_channels_eq, List.filter_In.
  rewrite (Permutation_in' (eq_refl s) (sort_by_perm start (mic ++ sys))).
  rewrite List.in_app_iff. reflexivity.
Qed.

(** C1 as stated fails: a blank segment is in the stable sort of the
    concatenation and not in the merged list. *)
Lemma merge_channels_not_sort_of_concatenation :
  let mic := [] in
  let sys := [mkSegment "Them" 0 1 "" ""] in
  merge_channels mic sys = []
  /\ sort_by start (mic ++ sys) = [mkSegment "Them" 0 1 "" ""]
  /\ ~ stable_sort_of start (mic ++ sys) (merge_channels mic sys).
Proof.
  cbv zeta. split; [reflexivity|]. split; [reflexivity|].
  intros [_ Hk]. specialize (Hk 0%Q). discriminate Hk.
Qed.

(** C1, amended: [merge_channels] returns the stable ascending sort by
    [start] of the concatenation self-then-remote from which the segments
    with blank text are removed.  In the result a segment with a strictly
    smaller [start] stands before one with a greater [start]; the segments
    of one [start] are the kept self segments of that [start] in their
    original order followed by the kept remote segments of that [start] in
    their original order; and the result is the only list with these
    properties, so it is determined by the two inputs. *)
Theorem merge_channels_stable_sort_of_kept (mic sys : list Segment) :
  let out := merge_channels mic sys in
  stable_sort_of start (List.filter nonblank (mic ++ sys)) out
  /\ (forall i j a b, nth_error out i = Some a -> nth_error out j = Some b ->
        (start a < start b)%Q -> (i < j)%nat)
  /\ (forall k, with_key start k out =
        with_key start k (List.filter nonblank mic)
        ++ with_key start k (List.filter nonblank sys))
  /\ Permutation out (List.filter nonblank (mic ++ sys))
  /\ (forall out', stable_sort_of start (List.filter nonblank (mic ++ sys)) out' ->
        out' = out).
Proof.
  cbv zeta. pose proof (merge_channels_stable mic sys) as Hst.
  split; [exact Hst|]. split; [|split; [|split]].
  - intros i j a b. apply ascending_lookup_lt. apply Hst.
  - intros k. destruct Hst as [_ Hk]. rewrite Hk, List.filter_app.
    apply with_key_app.
  - rewrite merge_channels_eq. apply filter_perm, sort_by_perm.
  - intros out' Hout'. eapply stable_sort_unique; eassumption.
Qed.

Lemma merged_text_not_blank (mic sys : list Segment) :
  List.Forall (fun s => PyStr.strip (text s) <> EmptyString
                        /\ text s <> EmptyString
                        /\ PyStr.all_space (text s) = false)
              (merge_channels mic sys).
Proof.
  apply List.Forall_forall. intros s Hs.
  apply merge_channels_In in Hs. destruct Hs as [_ Hs].
  apply nonblank_true in Hs. destruct Hs as [H1 H2].
  split; [exact H1|]. split; [|exact H2].
  intros E. rewrite E in H2. discriminate H2.
Qed.

(** C4: no segment of the merged list has a text that is empty or white
    space only, and the merge of no self segment with the one remote
    segment (0, 1, "") is the empty list. *)
Theorem merge_channels_drops_blank_text (mic sys : list Segment) :
  List.Forall (fun s => PyStr.strip (text s) <> EmptyString
                        /\ text s <> EmptyString
                        /\ PyStr.all_space (text s) = false)
              (merge_channels mic sys)
  /\ (forall speaker language,
        merge_channels [] [mkSegment speaker 0 1 "" language] = []).
Proof.
  split; [apply merged_text_not_blank|reflexivity].
Qed.

(** ** Word grouping *)

Lemma chunks_nonempty (mg : Q) (w : WordStamp) (ws : list WordStamp) :
  exists c cs, chunks mg (w :: ws) = c :: cs.
Proof.
  destruct ws as [|next rest]; simpl; [eauto|].
  destruct (Qgtb (gap w next) mg); [eauto|].
  destruct (match rest with [] => _ | _ => _ end); eauto.
Qed.






Lemma last_cons_indep {A : Type} (x : A) (l : list A) (d d' : A) :
  List.last (x :: l) d = List.last (x :: l) d'.
Proof.
  revert x. induction l as [|y l IH]; intros x; [reflexivity|].
  change (List.last (y :: l) d = List.last (y :: l) d'). apply IH.
Qed.

Lemma group_segment_snoc (cur : list WordStamp) (w d : WordStamp) :
  group_segment (cur ++ [w]) =
  word_segment (get_start (List.hd d (cur ++ [w]))) (get_end w)
               (List.map get_word cur ++ [get_word w]).
Proof.
  assert (Hm : List.map get_word cur ++ [get_word w] = List.map get_word (cur ++ [w]))
    by now rewrite List.map_app.
  unfold group_segment, word_segment. rewrite Hm. clear Hm.
  destruct cur as [|a cur']; [reflexivity|].
  change ((a :: cur') ++ [w]) with (a :: (cur' ++ [w])).
  cbv beta iota. f_equal. f_equal.
  change (a :: (cur' ++ [w])) with ((a :: cur') ++ [w]).
  apply List.last_last.
Qed.

(** The loop and the cut into groups: with [cur] the words collected for
    the open group, running the loop on the rest and closing the last
    group gives the segments of the groups of the rest, the first of them
    extended by [cur]. *)
Lemma group_loop_chunks (mg : Q) (ws : list WordStamp) :
  forall (w : WordStamp) (segs : list Segment) (cur : list WordStamp) (cs : Q),
    cs = get_start (List.hd w (cur ++ w :: ws)) ->
    exists c rc segs' cw' cs',
      chunks mg (w :: ws) = c :: rc
      /\ group_loop mg (w :: ws) segs (List.map get_word cur) cs = (segs', cw', cs')
      /\ cw' <> []
      /\ segs' ++ [word_segment cs' (get_end (List.last (w :: ws) w)) cw']
         = segs ++ List.map group_segment ((cur ++ c) :: rc).
Proof.
  induction ws as [|next rest IH]; intros w segs cur cs Hcs.
  - exists [w], [], segs, (List.map get_word cur ++ [get_word w]), cs.
    split; [reflexivity|]. split; [reflexivity|].
    split; [now destruct (List.map get_word cur)|].
    simpl. f_equal. f_equal. rewrite (group_segment_snoc cur w w).
    now rewrite Hcs.
  - change (chunks mg (w :: next :: rest)) with
      (if Qgtb (gap w next) mg then [w] :: chunks mg (next :: rest)
       else match chunks mg (next :: rest) with
            | [] => [[w]]
            | c :: cs => (w :: c) :: cs
            end).
    change (group_loop mg (w :: next :: rest) segs (List.map get_word cur) cs) with
      (if Qgtb (gap w next) mg then
         group_loop mg (next :: rest)
           (segs ++ [word_segment cs (get_end w) (List.map get_word cur ++ [get_word w])])
           [] (get_start next)
       else group_loop mg (next :: rest) segs
              (List.map get_word cur ++ [get_word w]) cs).
    change (List.last (w :: next :: rest) w) with (List.last (next :: rest) w).
    rewrite (last_cons_indep next rest w next).
    destruct (Qgtb (gap w next) mg).
    + destruct (IH next
                  (segs ++ [word_segment cs (get_end w)
                              (List.map get_word cur ++ [get_word w])])
                  [] (get_start next) eq_refl)
        as (c & rc & segs' & cw' & cs' & Hc & Hl & Hne & Heq).
      exists [w], (c :: rc), segs', cw', cs'.
      rewrite Hc. split; [reflexivity|]. split; [exact Hl|]. split; [exact Hne|].
      rewrite Heq. rewrite <- List.app_assoc. f_equal. simpl. f_equal.
      rewrite (group_segment_snoc cur w w). f_equal.
      rewrite Hcs. destruct cur; reflexivity.
    + destruct (IH next segs (cur ++ [w]) cs)
        as (c & rc & segs' & cw' & cs' & Hc & Hl & Hne & Heq).
      { rewrite Hcs, <- List.app_assoc. destruct cur; reflexivity. }
      exists (w :: c), rc, segs', cw', cs'.
      rewrite Hc. split; [reflexivity|].
      rewrite List.map_app in Hl. split; [exact Hl|]. split; [exact Hne|].
      rewrite Heq, <- List.app_assoc. reflexivity.
Qed.

(** The function computes the segments of the groups. *)
Lemma group_words_eq_chunks (ws : list WordStamp) (mg : Q) :
  _group_words_into_segments ws mg = List.map group_segment (chunks mg ws).
Proof.
  destruct ws as [|first rest]; [reflexivity|].
  destruct (group_loop_chunks mg rest first [] [] (get_start first) eq_refl)
    as (c & rc & segs' & cw' & cs' & Hc & Hl & Hne & Heq).
  unfold _group_words_into_segments.
  change (List.map get_word []) with (@nil string) in Hl. rewrite Hl, Hc.
  destruct cw' as [|x cw']; [now contradiction Hne|]. exact Heq.
Qed.



(** ** Strings: append, search, lines *)

Lemma append_inj_l (a x y : string) : a +:+ x = a +:+ y -> x = y.
Proof.
  induction a as [|c a IH]; simpl; [tauto|].
  intros H. injection H as H. now apply IH.
Qed.

Lemma contains_cons (c d : ascii) (s : string) :
  PyStr.contains c (String d s) = Ascii.eqb c d || PyStr.contains c s.
Proof. reflexivity. Qed.

Lemma contains_app (c : ascii) (a b : string) :
  PyStr.contains c (a +:+ b) = PyStr.contains c a || PyStr.contains c b.
Proof.
  induction a as [|d a IH]; [reflexivity|].
  change (String d a +:+ b) with (String d (a +:+ b)).
  now rewrite !contains_cons, IH, orb_assoc.
Qed.

Lemma split_nl_cons (c : ascii) (s : string) :
  PyStr.split_nl (String c s) =
  if Ascii.eqb c PyStr.newline then EmptyString :: PyStr.split_nl s
  else match PyStr.split_nl s with
       | [] => [String c EmptyString]
       | p :: ps => String c p :: ps
       end.
Proof. reflexivity. Qed.

Lemma split_nl_no_newline (s : string) :
  PyStr.contains PyStr.newline s = false -> PyStr.split_nl s = [s].
Proof.
  induction s as [|c s IH]; [reflexivity|].
  rewrite contains_cons, split_nl_cons. intros H.
  apply orb_false_iff in H. destruct H as [Hc Hs].
  rewrite Ascii.eqb_sym, Hc, (IH Hs). reflexivity.
Qed.

Lemma split_nl_app (p rest : string) :
  PyStr.contains PyStr.newline p = false ->
  PyStr.split_nl (p +:+ PyStr.nl +:+ rest) = p :: PyStr.split_nl rest.
Proof.
  induction p as [|c p IH]; intros H.
  - change (EmptyString +:+ PyStr.nl +:+ rest) with (String PyStr.newline rest).
    rewrite split_nl_cons, Ascii.eqb_refl. reflexivity.
  - change (String c p +:+ PyStr.nl +:+ rest)
      with (String c (p +:+ PyStr.nl +:+ rest)).
    rewrite contains_cons in H. apply orb_false_iff in H. destruct H as [Hc Hp].
    rewrite split_nl_cons, Ascii.eqb_sym, Hc, (IH Hp). reflexivity.
Qed.

Lemma split_nl_join (ls : list string) :
  List.Forall (fun l => PyStr.contains PyStr.newline l = false) ls -> ls <> [] ->
  PyStr.split_nl (PyStr.join PyStr.nl ls) = ls.
Proof.
  induction 1 as [|p ls Hp Hls IH]; intros Hne; [now contradiction Hne|].
  destruct ls as [|q ls'].
  - now apply split_nl_no_newline.
  - change (PyStr.join PyStr.nl (p :: q :: ls'))
      with (p +:+ PyStr.nl +:+ PyStr.join PyStr.nl (q :: ls')).
    rewrite (split_nl_app _ _ Hp). f_equal. apply IH. discriminate.
Qed.

(** The lines of the joined text are the joined lines, when no line holds
    a line feed and none is empty. *)
Lemma lines_join (ls : list string) :
  List.Forall (fun l => PyStr.contains PyStr.newline l = false) ls ->
  List.Forall (fun l => l <> EmptyString) ls ->
  PyStr.lines (PyStr.join PyStr.nl ls) = ls.
Proof.
  intros Hnl Hne. destruct ls as [|p ls']; [reflexivity|].
  pose proof (split_nl_join (p :: ls') Hnl ltac:(discriminate)) as Hs.
  unfold PyStr.lines. destruct (PyStr.join PyStr.nl (p :: ls')) eqn:E; [|exact Hs].
  exfalso. simpl in Hs. injection Hs as <- _.
  inversion Hne; subst. congruence.
Qed.

(** ** Decimal rendering *)

Lemma string_of_uint_no_newline (d : Decimal.uint) :
  PyStr.contains PyStr.newline (NilEmpty.string_of_uint d) = false.
Proof. induction d; simpl; auto. Qed.

Lemma str_of_Z_no_newline (n : Z) : PyStr.contains PyStr.newline (str_of_Z n) = false.
Proof.
  unfold str_of_Z, NilZero.string_of_uint.
  destruct (N.to_uint (Z.to_N n)); try reflexivity;
    apply (string_of_uint_no_newline (_ _)).
Qed.

Lemma format_1f_no_newline (x : Q) : PyStr.contains PyStr.newline (format_1f x) = false.
Proof.
  unfold format_1f. rewrite !contains_app, !str_of_Z_no_newline.
  destruct (Qltb x 0); reflexivity.
Qed.




(** ** Transcript assembly *)

Lemma append_assoc' (a b c : string) : (a +:+ b) +:+ c = a +:+ b +:+ c.
Proof.
  induction a as [|x a IH]; [reflexivity|].
  change (String x ((a +:+ b) +:+ c) = String x (a +:+ b +:+ c)). now rewrite IH.
Qed.

Lemma build_lines_from (merged : list Segment) (acc : list string) :
  fold_left (fun lines seg => lines ++ [format_line seg]) merged acc
  = acc ++ List.map format_line merged.
Proof.
  revert acc. induction merged as [|s merged IH]; intros acc; simpl.
  - now rewrite List.app_nil_r.
  - rewrite IH, <- List.app_assoc. reflexivity.
Qed.

(** One line per segment, in order. *)
Lemma build_lines_map (merged : list Segment) :
  build_lines merged = List.map format_line merged.
Proof. unfold build_lines. now rewrite build_lines_from. Qed.




Lemma format_line_no_newline (seg : Segment) :
  PyStr.contains PyStr.newline (speaker seg) = false ->
  PyStr.contains PyStr.newline (text seg) = false ->
  PyStr.contains PyStr.newline (format_line seg) = false.
Proof.
  intros Hs Ht. unfold format_line.
  rewrite !contains_app, Hs, Ht.
  destruct (Qgtb (start seg) 0); [|reflexivity].
  now rewrite !contains_app, format_1f_no_newline.
Qed.

Lemma format_line_nonempty (seg : Segment) : format_line seg <> EmptyString.
Proof. unfold format_line. discriminate. Qed.

(** [py_max] returns the default or one of the values. *)
Lemma py_max_fold_In (vs : list Q) (v : Q) :
  In (fold_left (fun m x => if Qgtb x m then x else m) vs v) (v :: vs).
Proof.
  revert v. induction vs as [|x vs IH]; intros v; simpl; [now left|].
  destruct (Qgtb x v).
  - destruct (IH x) as [H|H]; [right; left; exact H|right; right; exact H].
  - destruct (IH v) as [H|H]; [left; exact H|right; right; exact H].
Qed.

Lemma py_max_nonneg (values : list Q) :
  List.Forall (fun v => (0 <= v)%Q) values -> (0 <= py_max 0 values)%Q.
Proof.
  intros H. destruct values as [|v vs]; [apply Qle_refl|].
  rewrite List.Forall_forall in H. apply H. apply py_max_fold_In.
Qed.

Lemma py_max_fold_ge (vs : list Q) (v : Q) :
  (v <= fold_left (fun m x => if Qgtb x m then x else m) vs v)%Q
  /\ List.Forall (fun x => (x <= fold_left (fun m x => if Qgtb x m then x else m) vs v)%Q) vs.
Proof.
  revert v. induction vs as [|x vs IH]; intros v; simpl.
  - split; [apply Qle_refl|constructor].
  - destruct (Qgtb x v) eqn:E.
    + apply Qgtb_gt in E. destruct (IH x) as [H1 H2]. split.
      * eapply Qle_trans; [apply Qlt_le_weak, E|exact H1].
      * constructor; assumption.
    + apply Qgtb_le in E. destruct (IH v) as [H1 H2]. split; [exact H1|].
      constructor; [|assumption]. eapply Qle_trans; eassumption.
Qed.

(** [py_max] is an upper bound of the values. *)
Lemma py_max_ge (d : Q) (values : list Q) :
  List.Forall (fun v => (v <= py_max d values)%Q) values.
Proof.
  destruct values as [|v vs]; [constructor|].
  destruct (py_max_fold_ge vs v) as [H1 H2]. constructor; assumption.
Qed.



(** C7 as stated fails: a text with a line feed makes two lines of one
    segment, and a negative [end] makes the duration negative. *)
Lemma transcript_invariant_fails_without_wellformed_segments :
  (let t := build_transcript "whisper" 0
              (merge_channels [mkSegment "Me" 0 1 ("a" +:+ PyStr.nl +:+ "b") ""] []) in
   num_segments t = 1%nat /\ length (PyStr.lines (full_text t)) = 2%nat)
  /\ (let t := build_transcript "whisper" 0
                 (merge_channels [mkSegment "Me" 0 (-1) "a" ""] []) in
      (duration_seconds t < 0)%Q).
Proof.
  cbv zeta. split; [split; reflexivity|]. reflexivity.
Qed.

(** C7, amended: for every merged segment list (the empty one included)
    whose speakers and texts hold no line feed and whose [end] values are
    not negative, the transcript built by [transcribe_meeting] has as many
    lines in [full_text] as [num_segments], which is the length of
    [segments]; its [duration_seconds] is not negative; and no segment has
    an empty text. *)
Theorem transcript_invariant (primary : string) (elapsed : Q)
  (mic_segments sys_segments : list Segment) :
  let merged := merge_channels mic_segments sys_segments in
  let t := build_transcript primary elapsed merged in
  List.Forall (fun s => PyStr.contains PyStr.newline (speaker s) = false
                        /\ PyStr.contains PyStr.newline (text s) = false) merged ->
  List.Forall (fun s => (0 <= end_ s)%Q) merged ->
  length (PyStr.lines (full_text t)) = num_segments t
  /\ num_segments t = length (segments t)
  /\ (0 <= duration_seconds t)%Q
  /\ List.Forall (fun s => text s <> EmptyString) (segments t).
Proof.
  cbv zeta. intros Hnl Hend. unfold build_transcript. simpl.
  split; [|split; [reflexivity|split]].
  - rewrite build_lines_map, lines_join, List.length_map; [reflexivity| |].
    + apply List.Forall_map. eapply List.Forall_impl; [|exact Hnl].
      intros s [Hs Ht]. now apply format_line_no_newline.
    + apply List.Forall_map, List.Forall_forall. intros s _.
      apply format_line_nonempty.
  - apply py_max_nonneg. apply List.Forall_map. exact Hend.
  - pose proof (merged_text_not_blank mic_segments sys_segments) as H.
    eapply List.Forall_impl; [|exact H]. intros s (_ & Hs & _). exact Hs.
Qed.

(** The scenario of the specification with one blank self segment added:
    two lines, two segments. *)
Lemma transcript_invariant_witness :
  let mic_segments := [mkSegment "Me" 0 2 "hello" ""; mkSegment "Me" 3 4 " " ""] in
  let sys_segments := [mkSegment "Them" 1 3 "hi there" ""] in
  let t := build_transcript "parakeet" 1 (merge_channels mic_segments sys_segments) in
  length (PyStr.lines (full_text t)) = 2%nat
  /\ length (PyStr.lines (full_text t)) = num_segments t
  /\ num_segments t = length (segments t)
  /\ (0 <= duration_seconds t)%Q
  /\ List.Forall (fun s => text s <> EmptyString) (segments t).
Proof.
  cbv zeta. split; [reflexivity|].
  apply (transcript_invariant "parakeet" 1
           [mkSegment "Me" 0 2 "hello" ""; mkSegment "Me" 3 4 " " ""]
           [mkSegment "Them" 1 3 "hi there" ""]).
  - vm_compute. repeat constructor.
  - vm_compute. repeat constructor; discriminate.
Defined.

(** ** Channel transcription and the fallback *)

Section ChannelFacts.
Context (env : Env).

Lemma transcribe_whisper_run (audio_path : string) (w : World) :
  _transcribe_whisper env audio_path w
  = (outcome_map (fun r => whisper_segments (fst r) (snd r))
                 (whisper_engine env audio_path),
     mkWorld (files w) (calls w ++ [(Whisper, audio_path)])).
Proof.
  unfold _transcribe_whisper, bind, engine_call, ret.
  destruct (whisper_engine env audio_path); reflexivity.
Qed.

Lemma transcribe_parakeet_run (audio_path : string) (w : World) :
  _transcribe_parakeet env audio_path w
  = (outcome_map parakeet_segments (parakeet_engine env audio_path),
     mkWorld (files w) (calls w ++ [(Parakeet, audio_path)])).
Proof.
  unfold _transcribe_parakeet, bind, engine_call, ret.
  destruct (parakeet_engine env audio_path); reflexivity.
Qed.

(** With any primary other than "parakeet" the channel is transcribed by
    one run of [_transcribe_whisper], its segments tagged. *)
Lemma transcribe_channel_whisper_only (primary audio_path label : string) (w : World) :
  primary <> "parakeet" ->
  transcribe_channel env primary audio_path label w
  = (outcome_map (List.map (set_speaker label)) (fst (_transcribe_whisper env audio_path w)),
     snd (_transcribe_whisper env audio_path w)).
Proof.
  intros Hp. apply String.eqb_neq in Hp.
  unfold transcribe_channel. rewrite Hp.
  assert (Hif : (if String.eqb primary "whisper"
                 then _transcribe_whisper env audio_path
                 else _transcribe_whisper env audio_path)
                = _transcribe_whisper env audio_path)
    by (destruct (String.eqb primary "whisper"); reflexivity).
  rewrite Hif. unfold bind, ret.
  destruct (_transcribe_whisper env audio_path w) as [[segs|e] w']; reflexivity.
Qed.

(** With primary "parakeet" and a failing parakeet run, the channel is
    transcribed by a run of [_transcribe_whisper] after it. *)
Lemma transcribe_channel_parakeet_raises (audio_path label : string) (w : World)
  (e : PyError) :
  parakeet_engine env audio_path = Raise e -> is_Exception e = true ->
  let w1 := snd (_transcribe_parakeet env audio_path w) in
  transcribe_channel env "parakeet" audio_path label w
  = (outcome_map (List.map (set_speaker label)) (fst (_transcribe_whisper env audio_path w1)),
     snd (_transcribe_whisper env audio_path w1)).
Proof.
  intros He Hc. cbv zeta. unfold transcribe_channel.
  change (String.eqb "parakeet" "parakeet") with true. cbv iota.
  unfold bind at 1. unfold try_except.
  rewrite (transcribe_parakeet_run audio_path w), He. simpl outcome_map.
  cbv iota. rewrite Hc. simpl snd.
  destruct (_transcribe_whisper env audio_path _) as [[segs|e'] w']; reflexivity.
Qed.

Lemma set_speaker_tags (label : string) (segs : list Segment) :
  List.Forall (fun s => speaker s = label) (List.map (set_speaker label) segs).
Proof. apply List.Forall_map, List.Forall_forall. reflexivity. Qed.

End ChannelFacts.

(** C2: with primary "parakeet", when the parakeet transcription of the
    path raises an exception, [transcribe_channel] runs the whisper
    fallback on the same path (the engines are called on that path, first
    parakeet, then whisper, and no more) and returns the fallback's
    outcome, its segments each tagged with the speaker label; with primary
    "whisper", whisper alone is called and its exception is raised to the
    caller. *)
Theorem transcribe_channel_fallback (env : Env) (audio_path label : string)
  (w : World) :
  (forall e, parakeet_engine env audio_path = Raise e -> is_Exception e = true ->
     let w1 := snd (_transcribe_parakeet env audio_path w) in
     let run := transcribe_channel env "parakeet" audio_path label w in
     run = (outcome_map (List.map (set_speaker label))
                        (fst (_transcribe_whisper env audio_path w1)),
            snd (_transcribe_whisper env audio_path w1))
     /\ calls (snd run) = calls w ++ [(Parakeet, audio_path); (Whisper, audio_path)]
     /\ files (snd run) = files w
     /\ (forall segments_iter info_language,
           whisper_engine env audio_path = Return (segments_iter, info_language) ->
           fst run = Return (List.map (set_speaker label)
                               (whisper_segments segments_iter info_language)))
     /\ (forall segs, fst run = Return segs ->
           List.Forall (fun s => speaker s = label) segs))
  /\ (forall e, whisper_engine env audio_path = Raise e ->
        let run := transcribe_channel env "whisper" audio_path label w in
        fst run = Raise e
        /\ calls (snd run) = calls w ++ [(Whisper, audio_path)]
        /\ files (snd run) = files w).
Proof.
  split.
  - intros e He Hc. cbv zeta.
    rewrite (transcribe_channel_parakeet_raises env audio_path label w e He Hc).
    rewrite transcribe_parakeet_run, transcribe_whisper_run. simpl.
    split; [reflexivity|]. split; [now rewrite <- List.app_assoc|].
    split; [reflexivity|]. split.
    + intros segments_iter info_language Hw. rewrite Hw. reflexivity.
    + intros segs Hs. destruct (whisper_engine env audio_path); [|discriminate].
      injection Hs as <-. apply set_speaker_tags.
  - intros e He. cbv zeta.
    rewrite (transcribe_channel_whisper_only env "whisper" audio_path label w)
      by discriminate.
    rewrite transcribe_whisper_run, He. simpl. auto.
Qed.

(** An environment in which nothing is refused, parakeet always raises and
    whisper hears one fixed segment. *)
Lemma transcribe_channel_fallback_witness :
  let whisper_ok := mkEnv (fun _ => Raise (Exception "CUDA out of memory"))
                          (fun _ => Return ([mkWhisperSegment 0 1 " hi "], "en"))
                          (fun _ suffix dir => dir +:+ "/tmp" +:+ suffix)
                          (fun _ => false) (fun _ => false) (fun _ => false)
                          (fun _ => "{}") in
  let whisper_down := mkEnv (fun _ => Raise (Exception "CUDA out of memory"))
                            (fun _ => Raise (Exception "model not found"))
                            (fun _ suffix dir => dir +:+ "/tmp" +:+ suffix)
                            (fun _ => false) (fun _ => false) (fun _ => false)
                            (fun _ => "{}") in
  let w := mkWorld ∅ [] in
  transcribe_channel whisper_ok "parakeet" "s/mic.wav" "Me" w
  = (Return [mkSegment "Me" 0 1 "hi" "en"],
     mkWorld ∅ [(Parakeet, "s/mic.wav"); (Whisper, "s/mic.wav")])
  /\ fst (transcribe_channel whisper_down "whisper" "s/mic.wav" "Me" w)
     = Raise (Exception "model not found").
Proof.
  cbv zeta. split.
  - apply (proj1 (transcribe_channel_fallback
                    (mkEnv (fun _ => Raise (Exception "CUDA out of memory"))
                           (fun _ => Return ([mkWhisperSegment 0 1 " hi "], "en"))
                           (fun _ suffix dir => dir +:+ "/tmp" +:+ suffix)
                           (fun _ => false) (fun _ => false) (fun _ => false)
                           (fun _ => "{}"))
                    "s/mic.wav" "Me" (mkWorld ∅ []))
                 (Exception "CUDA out of memory") eq_refl eq_refl).
  - apply (proj2 (transcribe_channel_fallback
                    (mkEnv (fun _ => Raise (Exception "CUDA out of memory"))
                           (fun _ => Raise (Exception "model not found"))
                           (fun _ suffix dir => dir +:+ "/tmp" +:+ suffix)
                           (fun _ => false) (fun _ => false) (fun _ => false)
                           (fun _ => "{}"))
                    "s/mic.wav" "Me" (mkWorld ∅ []))
                 (Exception "model not found") eq_refl).
Defined.

(** C10: with any primary other than "parakeet", recognized or not,
    [transcribe_channel] calls whisper alone, once, on the path, returns
    its segments tagged, and raises to the caller whatever it raises. *)
Theorem transcribe_channel_other_primary (env : Env)
  (primary audio_path label : string) (w : World) :
  primary <> "parakeet" ->
  let run := transcribe_channel env primary audio_path label w in
  run = (outcome_map (List.map (set_speaker label))
                     (fst (_transcribe_whisper env audio_path w)),
         snd (_transcribe_whisper env audio_path w))
  /\ calls (snd run) = calls w ++ [(Whisper, audio_path)]
  /\ files (snd run) = files w
  /\ (forall e, whisper_engine env audio_path = Raise e -> fst run = Raise e).
Proof.
  intros Hp. cbv zeta.
  rewrite (transcribe_channel_whisper_only env primary audio_path label w Hp).
  rewrite transcribe_whisper_run. simpl.
  split; [reflexivity|]. split; [reflexivity|]. split; [reflexivity|].
  intros e He. now rewrite He.
Qed.

(** A primary that names no engine: whisper is called and its
    [KeyboardInterrupt] is the outcome. *)
Lemma transcribe_channel_other_primary_witness :
  let env := mkEnv (fun _ => Return [])
                   (fun _ => Raise (BaseException "KeyboardInterrupt"))
                   (fun _ suffix dir => dir +:+ "/tmp" +:+ suffix)
                   (fun _ => false) (fun _ => false) (fun _ => false)
                   (fun _ => "{}") in
  "large-v3" <> "parakeet"
  /\ transcribe_channel env "large-v3" "s/system.wav" "Them" (mkWorld ∅ [])
     = (Raise (BaseException "KeyboardInterrupt"),
        mkWorld ∅ [(Whisper, "s/system.wav")]).
Proof.
  cbv zeta. split; [discriminate|].
  apply (proj1 (transcribe_channel_other_primary
                  (mkEnv (fun _ => Return [])
                         (fun _ => Raise (BaseException "KeyboardInterrupt"))
                         (fun _ suffix dir => dir +:+ "/tmp" +:+ suffix)
                         (fun _ => false) (fun _ => false) (fun _ => false)
                         (fun _ => "{}"))
                  "large-v3" "s/system.wav" "Them" (mkWorld ∅ [])
                  ltac:(discriminate))).
Defined.

(** ** Echo suppression *)

Section EchoFacts.
Local Open Scope R_scope.

Lemma Rgtb_true (x y : R) : Echo.Rgtb x y = true <-> y < x.
Proof. unfold Echo.Rgtb. destruct (Rlt_dec y x); split; intros; auto; discriminate. Qed.

Lemma Rgtb_false (x y : R) : Echo.Rgtb x y = false <-> x <= y.
Proof.
  unfold Echo.Rgtb. destruct (Rlt_dec y x); split; intros; try lra; auto; discriminate.
Qed.

(** The attenuation of a non-negative ratio is between the floor 0.05 and 1. *)
Lemma attenuation_bounds (ratio : R) :
  0 <= ratio -> 0.05 <= Echo.attenuation ratio <= 1.0.
Proof.
  intros H. unfold Echo.attenuation, Rmax, Rmin.
  destruct (Rle_dec (ratio * 0.8) 0.95), (Rle_dec 0.05 _); lra.
Qed.

(** A gated frame: the system RMS is over the threshold and the ratio is
    over 0.3; the factor is the attenuation of the ratio. *)
Lemma gate_Some (s m t a : R) :
  Echo.gate s m t = Some a ->
  t < s /\ 0.3 < s / Rmax m 1e-6 /\ a = Echo.attenuation (s / Rmax m 1e-6).
Proof.
  unfold Echo.gate. destruct (Echo.Rgtb s t) eqn:E1; [|discriminate].
  cbv zeta. destruct (Echo.Rgtb (s / Rmax m 1e-6) 0.3) eqn:E2; [|discriminate].
  intros H. injection H as <-.
  apply Rgtb_true in E1, E2. auto.
Qed.

Lemma gate_bounds (s m t a : R) : Echo.gate s m t = Some a -> 0.05 <= a <= 1.0.
Proof.
  intros H. apply gate_Some in H. destruct H as (_ & Hr & ->).
  apply attenuation_bounds. lra.
Qed.

Lemma sum_zero (l : list R) : List.Forall (fun x => x = 0) l -> fold_right Rplus 0 l = 0.
Proof. induction 1 as [|x l Hx _ IH]; simpl; [reflexivity|]. rewrite Hx, IH. lra. Qed.

Lemma rms_zero (frame : list R) : List.Forall (fun x => x = 0) frame -> Echo.rms frame = 0.
Proof.
  intros H. unfold Echo.rms, Echo.mean. rewrite sum_zero.
  - unfold Rdiv. rewrite Rmult_0_l. apply sqrt_0.
  - apply List.Forall_map. eapply List.Forall_impl; [|exact H].
    intros x ->. lra.
Qed.

Lemma Forall_slice {A : Type} (P : A -> Prop) (a b : nat) (l : list A) :
  List.Forall P l -> List.Forall P (Echo.slice a b l).
Proof.
  intros H. unfold Echo.slice. apply Forall_take, Forall_drop, H.
Qed.

Lemma frame_rms_zero (frame_size num_frames : nat) (data : list R) :
  List.Forall (fun x => x = 0) data ->
  List.Forall (fun x => x = 0) (Echo.frame_rms frame_size num_frames data).
Proof.
  intros H. unfold Echo.frame_rms. apply List.Forall_map, List.Forall_forall.
  intros i _. apply rms_zero, Forall_slice, H.
Qed.

Lemma existsb_positive_zero (l : list R) :
  List.Forall (fun x => x = 0) l -> existsb (fun x => Echo.Rgtb x 0) l = false.
Proof.
  induction 1 as [|x l Hx _ IH]; simpl; [reflexivity|].
  rewrite IH, orb_false_r. apply Rgtb_false. lra.
Qed.

(** With no positive system RMS the median defaults to 0.001 and the
    threshold is 0.003. *)
Lemma silent_threshold (sys_rms : list R) :
  List.Forall (fun x => x = 0) sys_rms ->
  Echo.sys_median_of sys_rms = 0.001
  /\ Echo.sys_threshold_of (Echo.sys_median_of sys_rms) = 0.003.
Proof.
  intros H. unfold Echo.sys_median_of. rewrite (existsb_positive_zero _ H).
  split; [reflexivity|]. unfold Echo.sys_threshold_of, Rmax.
  destruct (Rle_dec _ _); lra.
Qed.

Lemma nth_zero (l : list R) (i : nat) : List.Forall (fun x => x = 0) l -> nth i l 0 = 0.
Proof.
  intros H. destruct (List.nth_in_or_default i l 0) as [Hin|Hd]; [|exact Hd].
  rewrite List.Forall_forall in H. now apply H.
Qed.

Lemma gate_silent (m t : R) : 0 <= t -> Echo.gate 0 m t = None.
Proof.
  intros Ht. unfold Echo.gate.
  replace (Echo.Rgtb 0 t) with false; [reflexivity|].
  symmetry. now apply Rgtb_false.
Qed.

(** With a silent system channel the gating loop changes nothing. *)
Lemma gate_loop_silent (frame_size : nat) (mic_rms sys_rms : list R) (t : R)
  (frames : list nat) (st : list R * nat) :
  List.Forall (fun x => x = 0) sys_rms -> 0 <= t ->
  fold_left (Echo.gate_step frame_size mic_rms sys_rms t) frames st = st.
Proof.
  intros Hz Ht. revert st. induction frames as [|i frames IH]; intros st; [reflexivity|].
  simpl. replace (Echo.gate_step frame_size mic_rms sys_rms t st i) with st; [apply IH|].
  destruct st as [cleaned n]. unfold Echo.gate_step.
  now rewrite (nth_zero _ _ Hz), gate_silent.
Qed.

Lemma remove_echo_total (mic_data sys_data : list R) (mic_sr : Z) :
  Echo.frame_size_of mic_sr <> O ->
  exists r, Echo.remove_echo mic_data sys_data mic_sr = Some r.
Proof.
  intros H. apply Nat.eqb_neq in H. unfold Echo.remove_echo. rewrite H.
  destruct (fold_left _ _ _). eauto.
Qed.

Lemma remove_echo_silent (mic_data sys_data : list R) (mic_sr : Z) (r : Echo.Cleaned) :
  List.Forall (fun x => x = 0) sys_data ->
  Echo.remove_echo mic_data sys_data mic_sr = Some r ->
  Echo.suppressed_frames r = O
  /\ Echo.cleaned r = firstn (Nat.min (length mic_data) (length sys_data)) mic_data
  /\ Echo.sys_threshold r = 0.003.
Proof.
  intros Hz. unfold Echo.remove_echo.
  destruct (Nat.eqb (Echo.frame_size_of mic_sr) 0); [discriminate|].
  set (min_len := Nat.min (length mic_data) (length sys_data)).
  set (fs := Echo.frame_size_of mic_sr).
  set (nf := Nat.div (length (firstn min_len mic_data)) fs).
  assert (Hs : List.Forall (fun x => x = 0) (Echo.frame_rms fs nf (firstn min_len sys_data)))
    by now apply frame_rms_zero, Forall_take.
  destruct (silent_threshold _ Hs) as [Hm Ht].
  rewrite (gate_loop_silent fs _ _ _ _ _ Hs) by (rewrite Ht; lra).
  intros H. injection H as <-. simpl. auto.
Qed.

End EchoFacts.

(** C3: the factor the gating loop applies to a gated frame is in
    [0.05, 1.0]; and when every sample of the system channel is zero, the
    threshold is 0.003, no frame is gated, and the cleaned signal is the
    mic signal, cut to the common length, unchanged (the function returns,
    unless the frame size is zero). *)
Theorem remove_echo_attenuation_bounds_and_silence :
  (forall sys_rms_i mic_rms_i sys_threshold a : R,
     Echo.gate sys_rms_i mic_rms_i sys_threshold = Some a ->
     (0.05 <= a <= 1.0)%R)
  /\ (forall (mic_data sys_data : list R) (mic_sr : Z),
        List.Forall (fun x => x = 0%R) sys_data ->
        let min_len := Nat.min (length mic_data) (length sys_data) in
        let frame_size := Echo.frame_size_of mic_sr in
        let num_frames := Nat.div (length (firstn min_len mic_data)) frame_size in
        let sys_rms := Echo.frame_rms frame_size num_frames (firstn min_len sys_data) in
        let mic_rms := Echo.frame_rms frame_size num_frames (firstn min_len mic_data) in
        let sys_threshold := Echo.sys_threshold_of (Echo.sys_median_of sys_rms) in
        (forall i, Echo.gate (nth i sys_rms 0%R) (nth i mic_rms 0%R) sys_threshold = None)
        /\ (forall r, Echo.remove_echo mic_data sys_data mic_sr = Some r ->
              Echo.suppressed_frames r = O
              /\ Echo.cleaned r = firstn min_len mic_data)
        /\ (frame_size <> O ->
              exists r, Echo.remove_echo mic_data sys_data mic_sr = Some r)).
Proof.
  split; [exact gate_bounds|].
  intros mic_data sys_data mic_sr Hz. cbv zeta. split; [|split].
  - intros i.
    assert (Hs : List.Forall (fun x => x = 0%R)
                   (Echo.frame_rms (Echo.frame_size_of mic_sr)
                      (Nat.div
                         (length (firstn (Nat.min (length mic_data) (length sys_data))
                                         mic_data))
                         (Echo.frame_size_of mic_sr))
                      (firstn (Nat.min (length mic_data) (length sys_data)) sys_data)))
      by now apply frame_rms_zero, Forall_take.
    destruct (silent_threshold _ Hs) as [_ Ht].
    rewrite (nth_zero _ _ Hs), Ht. apply gate_silent. lra.
  - intros r Hr. destruct (remove_echo_silent _ _ _ _ Hz Hr) as (H1 & H2 & _). auto.
  - apply remove_echo_total.
Qed.

(** A frame with RMS 1 on both channels is gated at the threshold 0.003;
    three mic samples over a silent system channel, at 100 Hz (one frame of
    three samples), come back unchanged. *)
Lemma remove_echo_attenuation_bounds_and_silence_witness :
  (Echo.gate 1 1 0.003 = Some (Echo.attenuation (1 / Rmax 1 1e-6))
   /\ 0.05 <= Echo.attenuation (1 / Rmax 1 1e-6) <= 1.0)%R
  /\ exists r,
       Echo.remove_echo [0.5; -0.5; 0.25]%R [0; 0; 0]%R 100 = Some r
       /\ Echo.cleaned r = [0.5; -0.5; 0.25]%R
       /\ Echo.suppressed_frames r = O.
Proof.
  assert (Hmax : Rmax 1 1e-6 = 1%R) by (unfold Rmax; destruct (Rle_dec _ _); lra).
  assert (Hg : Echo.gate 1 1 0.003 = Some (Echo.attenuation (1 / Rmax 1 1e-6))).
  { unfold Echo.gate. rewrite (proj2 (Rgtb_true 1 0.003)) by lra.
    cbv zeta. rewrite (proj2 (Rgtb_true _ 0.3)); [reflexivity|].
    rewrite Hmax. lra. }
  split.
  - split; [exact Hg|].
    exact (proj1 remove_echo_attenuation_bounds_and_silence 1%R 1%R 0.003%R _ Hg).
  - destruct (proj2 remove_echo_attenuation_bounds_and_silence
                [0.5; -0.5; 0.25]%R [0; 0; 0]%R 100%Z
                ltac:(repeat constructor)) as (_ & Hclean & Htotal).
    destruct Htotal as [r Hr]; [vm_compute; discriminate|].
    exists r. split; [exact Hr|].
    destruct (Hclean r Hr) as [Hn Hc]. split; [exact Hc|exact Hn].
Defined.

(** ** Running computations *)

Lemma bind_Return {A B : Type} (m : M A) (k : A -> M B) (w w' : World) (a : A) :
  m w = (Return a, w') -> bind m k w = k a w'.
Proof. intros H. unfold bind. now rewrite H. Qed.

Lemma bind_Raise {A B : Type} (m : M A) (k : A -> M B) (w w' : World) (e : PyError) :
  m w = (Raise e, w') -> bind m k w = (Raise e, w').
Proof. intros H. unfold bind. now rewrite H. Qed.

(** ** Persistence: [save_transcript] *)

Lemma append_nil_r (s : string) : s +:+ "" = s.
Proof.
  induction s as [|c s IH]; [reflexivity|].
  change (String c (s +:+ "") = String c s). now rewrite IH.
Qed.

Lemma join_empty_cons (p : string) (ps : list string) :
  PyStr.join "" (p :: ps) = p +:+ PyStr.join "" ps.
Proof. destruct ps; [symmetry; apply append_nil_r|reflexivity]. Qed.

Lemma with_suffix_base (p s1 s2 q1 q2 : string) :
  PyPath.with_suffix p s1 = Some q1 -> PyPath.with_suffix p s2 = Some q2 ->
  exists base, q1 = base +:+ s1 /\ q2 = base +:+ s2.
Proof.
  unfold PyPath.with_suffix. destruct (PyPath.split_name p) as [dir name].
  destruct (PyStr.truthy name); [|discriminate].
  intros H1 H2. injection H1 as <-. injection H2 as <-.
  exists (dir +:+ PyPath.stem name). now rewrite !append_assoc'.
Qed.

(** The two files of a transcript are different files. *)
Lemma json_md_paths_differ (p j m : string) :
  PyPath.with_suffix p ".json" = Some j -> PyPath.with_suffix p ".md" = Some m ->
  j <> m.
Proof.
  intros Hj Hm. destruct (with_suffix_base _ _ _ _ _ Hj Hm) as (base & -> & ->).
  intros E. apply append_inj_l in E. discriminate E.
Qed.

Section SaveFacts.
Context (env : Env).

Lemma open_w_run (path : string) (w : World) :
  open_w env path w
  = if open_denied env path then (Raise (OSError "PermissionError"), w)
    else (Return tt, set_files <[path := Text ""]> w).
Proof. reflexivity. Qed.

Lemma f_write_run (path s : string) (w : World) :
  f_write env path s w
  = if write_denied env path then (Raise (OSError "ENOSPC"), w)
    else (Return tt,
          set_files <[path := Text (text_of (files w !! path) +:+ s)]> w).
Proof. reflexivity. Qed.

(** Writing the parts one after the other appends their concatenation. *)
Lemma for_each_write_ok (path : string) (parts : list string) (w : World) (old : string) :
  write_denied env path = false ->
  files w !! path = Some (Text old) ->
  for_each parts (f_write env path) w
  = (Return tt, set_files <[path := Text (old +:+ PyStr.join "" parts)]> w).
Proof.
  intros Hw. revert w old. induction parts as [|p ps IH]; intros w old Hold.
  - simpl. unfold ret. f_equal. rewrite append_nil_r. destruct w as [f c].
    unfold set_files. simpl in *. f_equal. symmetry. now apply insert_id.
  - change (for_each (p :: ps) (f_write env path))
      with (bind (f_write env path p) (fun _ => for_each ps (f_write env path))).
    erewrite bind_Return; [|rewrite f_write_run, Hw, Hold; reflexivity].
    erewrite IH; [|simpl; apply lookup_insert_eq].
    rewrite join_empty_cons, <- append_assoc'.
    f_equal. destruct w as [f c]. unfold set_files. cbn [files calls]. f_equal.
    apply insert_insert_eq.
Qed.

(** A refused write raises on the first part. *)
Lemma for_each_write_denied (path : string) (p : string) (ps : list string) (w : World) :
  write_denied env path = true ->
  for_each (p :: ps) (f_write env path) w = (Raise (OSError "ENOSPC"), w).
Proof.
  intros Hw.
  change (for_each (p :: ps) (f_write env path))
    with (bind (f_write env path p) (fun _ => for_each ps (f_write env path))).
  erewrite bind_Raise; [reflexivity|]. now rewrite f_write_run, Hw.
Qed.

End SaveFacts.

Section SaveRun.
Context (env : Env).

Lemma set_files_overwrite (path : string) (c1 c2 : Content) (w : World) :
  set_files <[path := c2]> (set_files <[path := c1]> w) = set_files <[path := c2]> w.
Proof.
  destruct w as [f c]. unfold set_files. cbn [files calls]. f_equal.
  apply insert_insert_eq.
Qed.

(** What [save_transcript] does, step by step: the JSON file is opened
    (emptied) and written, then the markdown file is opened (emptied) and
    written; the first refused step raises and the later ones are not run. *)
Lemma save_transcript_run (result : Transcript) (output_path j m : string) (w : World) :
  PyPath.with_suffix output_path ".json" = Some j ->
  PyPath.with_suffix output_path ".md" = Some m ->
  save_transcript env result output_path w
  = if open_denied env j then (Raise (OSError "PermissionError"), w)
    else if write_denied env j
         then (Raise (OSError "ENOSPC"), set_files <[j := Text ""]> w)
    else
      let w1 := set_files <[j := Text (json_dumps env result)]> w in
      if open_denied env m then (Raise (OSError "PermissionError"), w1)
      else if write_denied env m
           then (Raise (OSError "ENOSPC"), set_files <[m := Text ""]> w1)
      else (Return tt, set_files <[m := Text (markdown_text result)]> w1).
Proof.
  intros Hj Hm. unfold save_transcript, path_with_suffix. rewrite Hj, Hm.
  unfold bind at 1. unfold ret at 1.
  unfold bind at 1. rewrite open_w_run.
  destruct (open_denied env j); [reflexivity|].
  unfold bind at 1. rewrite f_write_run.
  destruct (write_denied env j); [reflexivity|].
  replace (files (set_files <[j := Text ""]> w) !! j) with (Some (Text ""))
    by (destruct w; symmetry; apply lookup_insert_eq).
  change (text_of (Some (Text "")) +:+ json_dumps env result)
    with (json_dumps env result).
  rewrite set_files_overwrite. cbv zeta.
  unfold bind at 1. unfold ret at 1.
  unfold bind at 1. rewrite open_w_run.
  destruct (open_denied env m); [reflexivity|].
  destruct (write_denied env m) eqn:Hw.
  - unfold markdown_parts. now rewrite for_each_write_denied.
  - rewrite (for_each_write_ok env m (markdown_parts result) _ "" Hw)
      by (destruct w; apply lookup_insert_eq).
    rewrite set_files_overwrite. reflexivity.
Qed.

End SaveRun.

(** C5 as stated fails: when the markdown file cannot be opened the new
    JSON file is left beside the old markdown file. *)
Lemma save_transcript_not_atomic :
  let env := mkEnv (fun _ => Return []) (fun _ => Return ([], ""))
                   (fun _ suffix dir => dir +:+ "/tmp" +:+ suffix)
                   (fun p => String.eqb p "s/transcript.md")
                   (fun _ => false) (fun _ => false)
                   (fun t => full_text t) in
  let old := build_transcript "whisper" 1 [mkSegment "Me" 0 1 "old" ""] in
  let new := build_transcript "whisper" 1 [mkSegment "Me" 0 1 "new" ""] in
  let w := mkWorld (<["s/transcript.md" := Text (markdown_text old)]>
                      (<["s/transcript.json" := Text (json_dumps env old)]> ∅)) [] in
  let run := save_transcript env new "s/transcript" w in
  fst run = Raise (OSError "PermissionError")
  /\ files (snd run) !! "s/transcript.json" = Some (Text (json_dumps env new))
  /\ files (snd run) !! "s/transcript.md" = Some (Text (markdown_text old))
  /\ json_dumps env new <> json_dumps env old
  /\ markdown_text old <> markdown_text new.
Proof.
  cbv zeta. split; [vm_compute; reflexivity|].
  split; [vm_compute; reflexivity|]. split; [vm_compute; reflexivity|].
  split; vm_compute; discriminate.
Qed.

(** C5, amended: [save_transcript] writes the JSON file first and the
    markdown file second, each emptied and rewritten in place, and the pair
    is not written atomically.  When no file operation is refused both
    files hold the new transcript; when one is refused the error is raised
    to the caller.  A refusal to open the JSON file leaves every file as it
    was; a refusal on the markdown file leaves the new JSON file written.
    No other file is touched. *)
Theorem save_transcript_sequential_writes (env : Env) (result : Transcript)
  (output_path json_path md_path : string) (w : World) :
  PyPath.with_suffix output_path ".json" = Some json_path ->
  PyPath.with_suffix output_path ".md" = Some md_path ->
  let run := save_transcript env result output_path w in
  let refused := open_denied env json_path || write_denied env json_path
                 || open_denied env md_path || write_denied env md_path in
  json_path <> md_path
  /\ (refused = false ->
        run = (Return tt,
               set_files (fun f => <[md_path := Text (markdown_text result)]>
                                     (<[json_path := Text (json_dumps env result)]> f)) w))
  /\ (refused = true -> exists e, fst run = Raise e /\ is_OSError e = true)
  /\ (open_denied env json_path = true -> snd run = w)
  /\ (open_denied env json_path = false -> write_denied env json_path = false ->
        files (snd run) !! json_path = Some (Text (json_dumps env result)))
  /\ (open_denied env json_path = false -> write_denied env json_path = false ->
        open_denied env md_path = true ->
        files (snd run) !! md_path = files w !! md_path)
  /\ (forall p, p <> json_path -> p <> md_path ->
        files (snd run) !! p = files w !! p)
  /\ calls (snd run) = calls w.
Proof.
  intros Hj Hm. cbv zeta.
  pose proof (json_md_paths_differ _ _ _ Hj Hm) as Hne.
  rewrite (save_transcript_run env result output_path json_path md_path w Hj Hm).
  destruct w as [f c].
  destruct (open_denied env json_path), (write_denied env json_path),
    (open_denied env md_path), (write_denied env md_path);
    cbv zeta; unfold set_files; cbn [fst snd files calls orb];
    (split; [exact Hne|]);
    repeat match goal with
      | |- _ /\ _ => split
      | |- true = false -> _ => discriminate
      | |- false = true -> _ => discriminate
      | |- false = false -> _ => intros _
      | |- true = true -> _ => intros _
      | |- exists e, Raise ?x = Raise e /\ _ => exists x; split; reflexivity
      | |- forall p, _ => intros p Hp1 Hp2
      end;
    try reflexivity;
    rewrite ?lookup_insert_eq; try reflexivity;
    repeat (rewrite lookup_insert_ne by congruence); try reflexivity;
    rewrite ?lookup_insert_eq; reflexivity.
Qed.

(** Saving one segment under "s/transcript" with nothing refused. *)
Lemma save_transcript_sequential_writes_witness :
  let env := mkEnv (fun _ => Return []) (fun _ => Return ([], ""))
                   (fun _ suffix dir => dir +:+ "/tmp" +:+ suffix)
                   (fun _ => false) (fun _ => false) (fun _ => false)
                   (fun t => full_text t) in
  let result := build_transcript "whisper" 1 [mkSegment "Me" 0 1 "hello" ""] in
  PyPath.with_suffix "s/transcript" ".json" = Some "s/transcript.json"
  /\ PyPath.with_suffix "s/transcript" ".md" = Some "s/transcript.md"
  /\ save_transcript env result "s/transcript" (mkWorld ∅ [])
     = (Return tt,
        mkWorld (<["s/transcript.md" := Text (markdown_text result)]>
                   (<["s/transcript.json" := Text "**Me** : hello"]> ∅)) []).
Proof.
  cbv zeta. split; [reflexivity|]. split; [reflexivity|].
  apply (proj1 (proj2 (save_transcript_sequential_writes
           (mkEnv (fun _ => Return []) (fun _ => Return ([], ""))
                  (fun _ suffix dir => dir +:+ "/tmp" +:+ suffix)
                  (fun _ => false) (fun _ => false) (fun _ => false)
                  (fun t => full_text t))
           (build_transcript "whisper" 1 [mkSegment "Me" 0 1 "hello" ""])
           "s/transcript" "s/transcript.json" "s/transcript.md" (mkWorld ∅ [])
           eq_refl eq_refl)) eq_refl).
Defined.

(** ** The pipeline: [transcribe_meeting] and the cleaned temporary file *)

Section MeetingFacts.
Context (env : Env).

(** Transcribing a channel touches no file. *)
Lemma transcribe_channel_files (primary audio_path label : string) (w : World) :
  files (snd (transcribe_channel env primary audio_path label w)) = files w.
Proof.
  unfold transcribe_channel, bind, try_except, ret.
  destruct (String.eqb primary "parakeet").
  - rewrite transcribe_parakeet_run.
    destruct (parakeet_engine env audio_path) as [out|e]; simpl; [reflexivity|].
    destruct (is_Exception e); [|reflexivity].
    rewrite transcribe_whisper_run.
    destruct (whisper_engine env audio_path); reflexivity.
  - assert (Hif : (if String.eqb primary "whisper"
                   then _transcribe_whisper env audio_path
                   else _transcribe_whisper env audio_path)
                  = _transcribe_whisper env audio_path)
      by (destruct (String.eqb primary "whisper"); reflexivity).
    rewrite Hif, transcribe_whisper_run.
    destruct (whisper_engine env audio_path); reflexivity.
Qed.

(** When both files are audio, the frame size is not zero and the
    temporary file can be written, [_remove_echo] returns the temporary
    path and the file is there. *)
Lemma remove_echo_run (mic_path sys_path : string) (w : World)
  (mic_sr sys_sr : Z) (mic_d sys_d : AudioData) (r : Echo.Cleaned) :
  files w !! mic_path = Some (Audio mic_sr mic_d) ->
  files w !! sys_path = Some (Audio sys_sr sys_d) ->
  Echo.remove_echo (first_channel mic_d) (first_channel sys_d) mic_sr = Some r ->
  let clean_path := mktemp env (files w) "_clean.wav" (PyPath.parent mic_path) in
  open_denied env clean_path || write_denied env clean_path = false ->
  _remove_echo env mic_path sys_path w
  = (Return clean_path,
     set_files <[clean_path := Audio mic_sr (Mono (Echo.cleaned r))]> w).
Proof.
  intros Hm Hs Hr clean_path Hok.
  unfold _remove_echo, bind, sf_read. rewrite Hm, Hs. cbn [fst snd].
  rewrite Hr. unfold sf_write. fold clean_path. rewrite Hok. reflexivity.
Qed.

(** A successful [_remove_echo] leaves the cleaned audio at the path it
    returns. *)
Lemma remove_echo_creates (mic_path sys_path clean_path : string) (w w1 : World) :
  _remove_echo env mic_path sys_path w = (Return clean_path, w1) ->
  exists sr data, files w1 !! clean_path = Some (Audio sr (Mono data)).
Proof.
  unfold _remove_echo, bind, sf_read, raise.
  destruct (files w !! mic_path) as [[msr md|?]|]; try discriminate.
  destruct (files w !! sys_path) as [[ssr sd|?]|]; try discriminate.
  cbn [fst snd].
  destruct (Echo.remove_echo _ _ _) as [r|]; [|discriminate].
  unfold sf_write, ret.
  destruct (open_denied env _ || write_denied env _); [discriminate|].
  intros H. injection H as <- <-. exists msr, (Echo.cleaned r).
  destruct w. apply lookup_insert_eq.
Qed.

(** The failure path: an exception of either channel transcription leaves
    [transcribe_meeting] before the clean-up, with the files as
    [_remove_echo] left them. *)
Lemma transcribe_meeting_raises (primary : string) (elapsed : Q)
  (mic_path sys_path clean_path : string) (w w1 : World) (e : PyError) :
  _remove_echo env mic_path sys_path w = (Return clean_path, w1) ->
  (fst (transcribe_channel env primary clean_path "Me" w1) = Raise e
   \/ exists segs w2,
        transcribe_channel env primary clean_path "Me" w1 = (Return segs, w2)
        /\ fst (transcribe_channel env primary sys_path "Them" w2) = Raise e) ->
  fst (transcribe_meeting env primary elapsed mic_path sys_path w) = Raise e
  /\ files (snd (transcribe_meeting env primary elapsed mic_path sys_path w)) = files w1.
Proof.
  intros He Hfail.
  assert (Hrun : exists wf,
             transcribe_meeting env primary elapsed mic_path sys_path w = (Raise e, wf)
             /\ files wf = files w1).
  { unfold transcribe_meeting.
    unfold bind at 1. unfold try_except. rewrite He.
    destruct Hfail as [Hme|(segs & w2 & Hme & Hthem)].
    - pose proof (transcribe_channel_files primary clean_path "Me" w1) as Hf.
      unfold bind at 1.
      destruct (transcribe_channel env primary clean_path "Me" w1) as [[s|e'] w2];
        simpl in Hme; [discriminate|].
      injection Hme as ->. simpl in Hf. eauto.
    - pose proof (transcribe_channel_files primary clean_path "Me" w1) as Hf1.
      pose proof (transcribe_channel_files primary sys_path "Them" w2) as Hf2.
      unfold bind at 1. rewrite Hme in *. unfold bind at 1.
      destruct (transcribe_channel env primary sys_path "Them" w2) as [[s|e'] w3];
        simpl in Hthem; [discriminate|].
      injection Hthem as ->. simpl in Hf1, Hf2. exists w3. split; [reflexivity|congruence]. }
  destruct Hrun as (wf & -> & Hf). auto.
Qed.

(** The success path: the cleaned file is unlinked, and a refused unlink
    is passed over. *)
Lemma transcribe_meeting_returns (primary : string) (elapsed : Q)
  (mic_path sys_path clean_path : string) (w w1 w2 w3 : World)
  (mic_segments sys_segments : list Segment) :
  _remove_echo env mic_path sys_path w = (Return clean_path, w1) ->
  clean_path <> mic_path ->
  transcribe_channel env primary clean_path "Me" w1 = (Return mic_segments, w2) ->
  transcribe_channel env primary sys_path "Them" w2 = (Return sys_segments, w3) ->
  fst (transcribe_meeting env primary elapsed mic_path sys_path w)
  = Return (build_transcript primary elapsed (merge_channels mic_segments sys_segments))
  /\ files (snd (transcribe_meeting env primary elapsed mic_path sys_path w))
     = if unlink_denied env clean_path then files w1
       else delete clean_path (files w1).
Proof.
  intros He Hne Hme Hthem.
  pose proof (transcribe_channel_files primary clean_path "Me" w1) as Hf1.
  pose proof (transcribe_channel_files primary sys_path "Them" w2) as Hf2.
  rewrite Hme in Hf1. rewrite Hthem in Hf2. simpl in Hf1, Hf2.
  destruct (remove_echo_creates _ _ _ _ _ He) as (sr & data & Hfile).
  assert (Hrun : transcribe_meeting env primary elapsed mic_path sys_path w
                 = (Return (build_transcript primary elapsed
                              (merge_channels mic_segments sys_segments)),
                    if unlink_denied env clean_path then w3
                    else set_files (delete clean_path) w3)).
  { unfold transcribe_meeting.
    unfold bind at 1. unfold try_except at 1. rewrite He.
    unfold bind at 1. rewrite Hme.
    unfold bind at 1. rewrite Hthem.
    apply String.eqb_neq in Hne. rewrite Hne. cbn [negb].
    unfold bind at 1. unfold try_except, os_unlink.
    rewrite Hf2, Hf1, Hfile.
    destruct (unlink_denied env clean_path); reflexivity. }
  rewrite Hrun. cbn [fst snd]. split; [reflexivity|].
  destruct (unlink_denied env clean_path); [congruence|].
  unfold set_files. cbn [files]. congruence.
Qed.

End MeetingFacts.

(** C8, the defect: when [_remove_echo] has written the cleaned file and a
    channel transcription raises, [transcribe_meeting] raises the same
    exception and the cleaned file is still on disk: the clean-up is only
    on the path on which both transcriptions return. *)
Theorem transcribe_meeting_leaves_clean_file_on_failure (env : Env)
  (primary : string) (elapsed : Q) (mic_path sys_path clean_path : string)
  (w w1 : World) (e : PyError) :
  _remove_echo env mic_path sys_path w = (Return clean_path, w1) ->
  (fst (transcribe_channel env primary clean_path "Me" w1) = Raise e
   \/ exists segs w2,
        transcribe_channel env primary clean_path "Me" w1 = (Return segs, w2)
        /\ fst (transcribe_channel env primary sys_path "Them" w2) = Raise e) ->
  let run := transcribe_meeting env primary elapsed mic_path sys_path w in
  fst run = Raise e
  /\ files (snd run) = files w1
  /\ exists sr data, files (snd run) !! clean_path = Some (Audio sr (Mono data)).
Proof.
  intros He Hfail. cbv zeta.
  destruct (transcribe_meeting_raises env primary elapsed _ _ _ _ _ _ He Hfail)
    as [H1 H2].
  split; [exact H1|]. split; [exact H2|]. rewrite H2.
  eapply remove_echo_creates, He.
Qed.

(** A session whose two recordings are shorter than one frame, with
    whisper as the primary and failing: the exception reaches the caller
    and the cleaned file stays. *)
Lemma transcribe_meeting_leaves_clean_file_on_failure_witness :
  let env := mkEnv (fun _ => Return [])
                   (fun _ => Raise (Exception "whisper failed"))
                   (fun _ suffix dir => dir +:+ "/tmpk3x" +:+ suffix)
                   (fun _ => false) (fun _ => false) (fun _ => false)
                   (fun t => full_text t) in
  let w := mkWorld (<["s/mic.wav" := Audio 16000 (Mono [0.5%R])]>
                      (<["s/system.wav" := Audio 16000 (Mono [0%R])]> ∅)) [] in
  let run := transcribe_meeting env "whisper" 1 "s/mic.wav" "s/system.wav" w in
  fst run = Raise (Exception "whisper failed")
  /\ files (snd run) !! "s/tmpk3x_clean.wav" = Some (Audio 16000 (Mono [0.5%R])).
Proof.
  cbv zeta.
  set (env := mkEnv (fun _ => Return [])
                    (fun _ => Raise (Exception "whisper failed"))
                    (fun _ suffix dir => dir +:+ "/tmpk3x" +:+ suffix)
                    (fun _ => false) (fun _ => false) (fun _ => false)
                    (fun t => full_text t)).
  set (w := mkWorld (<["s/mic.wav" := Audio 16000 (Mono [0.5%R])]>
                       (<["s/system.wav" := Audio 16000 (Mono [0%R])]> ∅)) []).
  destruct (remove_echo_total [0.5%R] [0%R] 16000 ltac:(vm_compute; discriminate))
    as [r Hr].
  destruct (remove_echo_silent [0.5%R] [0%R] 16000 r ltac:(repeat constructor) Hr)
    as (_ & Hc & _).
  assert (He : _remove_echo env "s/mic.wav" "s/system.wav" w
               = (Return "s/tmpk3x_clean.wav",
                  set_files <["s/tmpk3x_clean.wav" := Audio 16000 (Mono (Echo.cleaned r))]> w)).
  { apply (remove_echo_run env "s/mic.wav" "s/system.wav" w 16000 16000
             (Mono [0.5%R]) (Mono [0%R]) r).
    - apply lookup_insert_eq.
    - unfold w. cbn [files]. rewrite lookup_insert_ne by discriminate.
      apply lookup_insert_eq.
    - exact Hr.
    - reflexivity. }
  destruct (transcribe_meeting_leaves_clean_file_on_failure env "whisper" 1
              "s/mic.wav" "s/system.wav" "s/tmpk3x_clean.wav" w _
              (Exception "whisper failed") He (or_introl eq_refl))
    as (H1 & H2 & _).
  split; [exact H1|]. rewrite H2, Hc. apply lookup_insert_eq.
Defined.

(** ** Further properties and the scenarios of the specification *)

(** Two segments with different starts are both kept, in the order of
    their starts. *)
Example merge_channels_scenario :
  merge_channels [mkSegment "Me" 0 2 "hello" ""] [mkSegment "Them" 1 3 "hi there" ""]
  = [mkSegment "Me" 0 2 "hello" ""; mkSegment "Them" 1 3 "hi there" ""]
  /\ duration_seconds
       (build_transcript "parakeet" 0
          (merge_channels [] [mkSegment "Them" 0 1 "" ""])) = 0%Q.
Proof. split; reflexivity. Qed.

(** Equal starts: self before remote, each channel in its own order, the
    blank segment dropped. *)
Example merge_channels_ties :
  merge_channels
    [mkSegment "Me" 1 2 "a" ""; mkSegment "Me" 0 2 "b" ""; mkSegment "Me" 1 2 "  " ""]
    [mkSegment "Them" 1 3 "c" ""; mkSegment "Them" 0 1 "d" ""]
  = [mkSegment "Me" 0 2 "b" ""; mkSegment "Them" 0 1 "d" "";
     mkSegment "Me" 1 2 "a" ""; mkSegment "Them" 1 3 "c" ""].
Proof. reflexivity. Qed.

(** A gap of exactly 1.5 s is no boundary; a gap of 1.6 s is one. *)
Example group_words_scenario :
  _group_words_into_segments
    [mkWord (Some "a") (Some 0%Q) (Some 1%Q);
     mkWord (Some "b") (Some 1.2%Q) (Some 2%Q);
     mkWord (Some "c") (Some 3.5%Q) (Some 4%Q);
     mkWord (Some "d") (Some 5.6%Q) (Some 6%Q);
     mkWord (Some "e") (Some 6%Q) (Some 7%Q)] max_gap_default
  = [mkSegment "" 0 4 "a b c" ""; mkSegment "" 5.6 7 "d e" ""].
Proof. reflexivity. Qed.

(** [duration_seconds] is the greatest [end]: an upper bound of every
    segment's [end], attained by a segment, and 0 for no segment. *)
Theorem duration_seconds_is_max_end (primary : string) (elapsed : Q)
  (merged : list Segment) :
  let t := build_transcript primary elapsed merged in
  List.Forall (fun s => (end_ s <= duration_seconds t)%Q) merged
  /\ match merged with
     | [] => duration_seconds t = 0%Q
     | _ :: _ => exists s, In s merged /\ duration_seconds t = end_ s
     end.
Proof.
  cbv zeta. unfold build_transcript. cbn [duration_seconds]. split.
  - pose proof (py_max_ge 0 (List.map end_ merged)) as H.
    rewrite List.Forall_map in H. exact H.
  - destruct merged as [|s merged]; [reflexivity|].
    pose proof (py_max_fold_In (List.map end_ merged) (end_ s)) as H.
    change (In (py_max 0 (List.map end_ (s :: merged)))
               (List.map end_ (s :: merged))) in H.
    apply List.in_map_iff in H. destruct H as (x & Hx & Hin). eauto.
Qed.

(** When both channel transcriptions return, [transcribe_meeting] returns
    the transcript of the merged channels and the cleaned file is gone,
    unless the system refuses the unlink, which is passed over. *)
Theorem transcribe_meeting_removes_clean_file (env : Env) (primary : string)
  (elapsed : Q) (mic_path sys_path clean_path : string) (w w1 w2 w3 : World)
  (mic_segments sys_segments : list Segment) :
  _remove_echo env mic_path sys_path w = (Return clean_path, w1) ->
  clean_path <> mic_path ->
  transcribe_channel env primary clean_path "Me" w1 = (Return mic_segments, w2) ->
  transcribe_channel env primary sys_path "Them" w2 = (Return sys_segments, w3) ->
  let run := transcribe_meeting env primary elapsed mic_path sys_path w in
  fst run
  = Return (build_transcript primary elapsed (merge_channels mic_segments sys_segments))
  /\ (unlink_denied env clean_path = false -> files (snd run) !! clean_path = None)
  /\ (unlink_denied env clean_path = true -> files (snd run) = files w1).
Proof.
  intros He Hne Hme Hthem. cbv zeta.
  destruct (transcribe_meeting_returns env primary elapsed _ _ _ _ _ _ _ _ _
              He Hne Hme Hthem) as [H1 H2].
  split; [exact H1|]. rewrite H2. split; intros ->.
  - apply lookup_delete_eq.
  - reflexivity.
Qed.

(** The session of the failure scenario with whisper answering: the
    transcript is returned and the cleaned file is removed. *)
Lemma transcribe_meeting_removes_clean_file_witness :
  let env := mkEnv (fun _ => Return [])
                   (fun p => Return ([mkWhisperSegment 0 1 (" heard " +:+ p)], "en"))
                   (fun _ suffix dir => dir +:+ "/tmpk3x" +:+ suffix)
                   (fun _ => false) (fun _ => false) (fun _ => false)
                   (fun t => full_text t) in
  let w := mkWorld (<["s/mic.wav" := Audio 16000 (Mono [0.5%R])]>
                      (<["s/system.wav" := Audio 16000 (Mono [0%R])]> ∅)) [] in
  let run := transcribe_meeting env "whisper" 1 "s/mic.wav" "s/system.wav" w in
  full_text <$> (match fst run with Return t => Some t | Raise _ => None end)
  = Some ("**Me** : heard s/tmpk3x_clean.wav" +:+ PyStr.nl
          +:+ "**Them** : heard s/system.wav")
  /\ files (snd run) !! "s/tmpk3x_clean.wav" = None.
Proof.
  cbv zeta.
  set (env := mkEnv (fun _ => Return [])
                    (fun p => Return ([mkWhisperSegment 0 1 (" heard " +:+ p)], "en"))
                    (fun _ suffix dir => dir +:+ "/tmpk3x" +:+ suffix)
                    (fun _ => false) (fun _ => false) (fun _ => false)
                    (fun t => full_text t)).
  set (w := mkWorld (<["s/mic.wav" := Audio 16000 (Mono [0.5%R])]>
                       (<["s/system.wav" := Audio 16000 (Mono [0%R])]> ∅)) []).
  destruct (remove_echo_total [0.5%R] [0%R] 16000 ltac:(vm_compute; discriminate))
    as [r Hr].
  assert (He : _remove_echo env "s/mic.wav" "s/system.wav" w
               = (Return "s/tmpk3x_clean.wav",
                  set_files <["s/tmpk3x_clean.wav" := Audio 16000 (Mono (Echo.cleaned r))]> w)).
  { apply (remove_echo_run env "s/mic.wav" "s/system.wav" w 16000 16000
             (Mono [0.5%R]) (Mono [0%R]) r).
    - apply lookup_insert_eq.
    - unfold w. cbn [files]. rewrite lookup_insert_ne by discriminate.
      apply lookup_insert_eq.
    - exact Hr.
    - reflexivity. }
  destruct (transcribe_meeting_removes_clean_file env "whisper" 1
              "s/mic.wav" "s/system.wav" "s/tmpk3x_clean.wav" w _ _ _ _ _
              He ltac:(discriminate) eq_refl eq_refl) as (H1 & H2 & _).
  split; [rewrite H1; reflexivity|]. apply H2. reflexivity.
Defined.

(** ** The texts the engines' segments carry *)

Lemma rstrip_cons (c : ascii) (s : string) :
  PyStr.rstrip (String c s)
  = match PyStr.rstrip s with
    | EmptyString => if PyStr.isspace c then EmptyString else String c EmptyString
    | String d r => String c (String d r)
    end.
Proof. simpl. destruct (PyStr.rstrip s); reflexivity. Qed.

Lemma rstrip_idempotent (s : string) : PyStr.rstrip (PyStr.rstrip s) = PyStr.rstrip s.
Proof.
  induction s as [|c s IH]; [reflexivity|].
  rewrite (rstrip_cons c s). destruct (PyStr.rstrip s) as [|d r] eqn:E.
  - destruct (PyStr.isspace c) eqn:Hc; [reflexivity|].
    rewrite rstrip_cons. simpl. now rewrite Hc.
  - rewrite rstrip_cons, IH. reflexivity.
Qed.

Lemma lstrip_nonspace_head (c : ascii) (s : string) :
  PyStr.isspace c = false -> PyStr.lstrip (String c s) = String c s.
Proof. intros H. simpl. now rewrite H. Qed.

Lemma rstrip_keeps_head (c : ascii) (s : string) :
  PyStr.isspace c = false -> exists r, PyStr.rstrip (String c s) = String c r.
Proof.
  intros H. simpl. destruct (PyStr.rstrip s); [rewrite H|]; eauto.
Qed.

(** Stripping a stripped string changes nothing. *)
Lemma strip_idempotent (s : string) : PyStr.strip (PyStr.strip s) = PyStr.strip s.
Proof.
  unfold PyStr.strip. destruct (PyStr.lstrip s) as [|c r] eqn:E; [reflexivity|].
  pose proof (lstrip_head s c r E) as Hc.
  destruct (rstrip_keeps_head c r Hc) as [r' Hr]. rewrite Hr.
  rewrite (lstrip_nonspace_head c r' Hc), <- Hr. apply rstrip_idempotent.
Qed.

Lemma group_words_nonempty (w : WordStamp) (ws : list WordStamp) (mg : Q) :
  _group_words_into_segments (w :: ws) mg <> [].
Proof.
  rewrite group_words_eq_chunks.
  destruct (chunks_nonempty mg w ws) as (c & cs & ->). discriminate.
Qed.

(** A segment as an engine adapter leaves it: stripped text, no speaker,
    the given language. *)
Lemma group_words_fresh (word_stamps : list WordStamp) (max_gap : Q) :
  List.Forall (fun s => PyStr.strip (text s) = text s
                        /\ speaker s = EmptyString /\ language s = EmptyString)
              (_group_words_into_segments word_stamps max_gap).
Proof.
  rewrite group_words_eq_chunks.
  apply List.Forall_map, List.Forall_forall. intros g _.
  destruct g as [|w g]; [repeat split|].
  unfold group_segment. cbn [text speaker language].
  split; [apply strip_idempotent|split; reflexivity].
Qed.

Lemma parakeet_segments_fresh (output : list NemoResult) :
  List.Forall (fun s => PyStr.strip (text s) = text s
                        /\ speaker s = EmptyString /\ language s = EmptyString)
              (parakeet_segments output).
Proof.
  destruct output as [|result rest]; [constructor|].
  unfold parakeet_segments.
  destruct (hyp_timestamp result) as [ts|].
  - destruct (ts_segment ts) as [|st sts] eqn:Es.
    + destruct (ts_word ts) as [|w ws] eqn:Ew.
      * destruct (hyp_text result) as [t|]; [|constructor].
        destruct (PyStr.truthy t); [|constructor].
        repeat constructor. apply strip_idempotent.
      * pose proof (group_words_fresh (w :: ws) max_gap_default) as H.
        destruct (_group_words_into_segments (w :: ws) max_gap_default) eqn:Eg;
          [now destruct (group_words_nonempty w ws max_gap_default)|].
        destruct (hyp_text result); exact H.
    + cbn [List.map]. destruct (hyp_text result).
      all: constructor;
        [split; [apply strip_idempotent|split; reflexivity]|];
        apply List.Forall_map, List.Forall_forall; intros seg _;
        split; [apply strip_idempotent|split; reflexivity].
  - destruct (hyp_text result) as [t|]; [|constructor].
    destruct (PyStr.truthy t); [|constructor].
    repeat constructor. apply strip_idempotent.
Qed.

Lemma whisper_segments_fresh (segments_iter : list WhisperSegment)
  (info_language : string) :
  List.Forall (fun s => PyStr.strip (text s) = text s
                        /\ speaker s = EmptyString /\ language s = info_language)
              (whisper_segments segments_iter info_language).
Proof.
  apply List.Forall_map, List.Forall_forall. intros s _.
  split; [apply strip_idempotent|split; reflexivity].
Qed.

(** Every segment an engine adapter builds has a stripped text and no
    speaker yet; parakeet's carry no language, whisper's carry the detected
    one, one segment per utterance the engine returned. *)
Theorem engine_segments_are_stripped_and_untagged :
  (forall output : list NemoResult,
     List.Forall (fun s => PyStr.strip (text s) = text s
                           /\ speaker s = EmptyString /\ language s = EmptyString)
                 (parakeet_segments output))
  /\ (forall (segments_iter : list WhisperSegment) (info_language : string),
        List.Forall (fun s => PyStr.strip (text s) = text s
                              /\ speaker s = EmptyString /\ language s = info_language)
                    (whisper_segments segments_iter info_language)
        /\ length (whisper_segments segments_iter info_language) = length segments_iter)
  /\ (forall (word_stamps : list WordStamp) (max_gap : Q),
        List.Forall (fun s => PyStr.strip (text s) = text s
                              /\ speaker s = EmptyString /\ language s = EmptyString)
                    (_group_words_into_segments word_stamps max_gap)).
Proof.
  split; [exact parakeet_segments_fresh|]. split; [|exact group_words_fresh].
  intros it lang. split; [apply whisper_segments_fresh|apply List.length_map].
Qed.

(** What [_transcribe_parakeet] makes of the model's output: only the
    first hypothesis counts; segment time stamps, when present, give one
    segment each and the word time stamps and the text are not used; with
    no time stamp of either kind a non-empty text gives the single segment
    (0, 0, text); and no segment at all comes back exactly when there is
    no hypothesis, or neither a time stamp nor a text. *)
Theorem parakeet_segments_degrade (result : NemoResult) (rest : list NemoResult) :
  let no_stamps :=
    match hyp_timestamp result with
    | Some ts => ts_segment ts = [] /\ ts_word ts = []
    | None => True
    end in
  parakeet_segments (result :: rest) = parakeet_segments [result]
  /\ (forall ts, hyp_timestamp result = Some ts -> ts_segment ts <> [] ->
        length (parakeet_segments (result :: rest)) = length (ts_segment ts)
        /\ List.map start (parakeet_segments (result :: rest))
           = List.map (fun st => default 0%Q (ss_start st)) (ts_segment ts)
        /\ List.map end_ (parakeet_segments (result :: rest))
           = List.map (fun st => default 0%Q (ss_end st)) (ts_segment ts))
  /\ (no_stamps -> forall t, hyp_text result = Some t -> t <> EmptyString ->
        parakeet_segments (result :: rest) = [mkSegment "" 0 0 (PyStr.strip t) ""])
  /\ (parakeet_segments (result :: rest) = [] <->
        no_stamps
        /\ match hyp_text result with Some t => t = EmptyString | None => True end).
Proof.
  cbv zeta. split; [reflexivity|]. unfold parakeet_segments.
  destruct (hyp_timestamp result) as [ts|].
  - destruct (ts_segment ts) as [|st sts] eqn:Es.
    + destruct (ts_word ts) as [|w ws] eqn:Ew.
      * split; [intros ts' H; injection H as <-; rewrite Es; intros Hne; now contradiction Hne|].
        destruct (hyp_text result) as [t|].
        -- split.
           ++ intros _ t' H Hne. injection H as <-.
              destruct t; [now contradiction Hne|reflexivity].
           ++ destruct t; simpl; split; auto; try discriminate.
              intros [_ H]. discriminate H.
        -- split; [intros _ t H; discriminate H|]. split; auto.
      * pose proof (group_words_nonempty w ws max_gap_default) as Hne.
        destruct (_group_words_into_segments (w :: ws) max_gap_default) as [|s ss];
          [now contradiction Hne|].
        split; [intros ts' H; injection H as <-; rewrite Es; intros Hn; now contradiction Hn|].
        split.
        -- intros [_ H]. discriminate H.
        -- split; [destruct (hyp_text result); discriminate|].
           intros [[_ H] _]. discriminate H.
    + split.
      * intros ts' H Hne. injection H as <-. rewrite Es.
        destruct (hyp_text result); cbn [List.map length];
          rewrite ?List.length_map, ?List.map_map; auto.
      * split.
        -- intros [H _]. discriminate H.
        -- split; [destruct (hyp_text result); discriminate|].
           intros [[H _] _]. discriminate H.
  - split; [intros ts H; discriminate H|].
    destruct (hyp_text result) as [t|].
    + split.
      * intros _ t' H Hne. injection H as <-.
        destruct t; [now contradiction Hne|reflexivity].
      * destruct t; simpl; split; auto; try discriminate.
        intros [_ H]. discriminate H.
    + split; [intros _ t H; discriminate H|]. split; auto.
Qed.

(** An engine result with segment time stamps, word time stamps and a
    text: the two segment stamps are used. *)
Lemma parakeet_segments_degrade_witness :
  let result :=
    mkNemoResult
      (Some (mkTimeStamps
               [mkSegStamp (Some 0%Q) (Some 2%Q) (Some " hello there ");
                mkSegStamp None None None]
               [mkWord (Some "hello") (Some 0%Q) (Some 1%Q)]))
      (Some "hello there") in
  List.map start (parakeet_segments [result]) = [0%Q; 0%Q]
  /\ List.map end_ (parakeet_segments [result]) = [2%Q; 0%Q]
  /\ parakeet_segments [mkNemoResult None (Some " hi ")] = [mkSegment "" 0 0 "hi" ""].
Proof.
  cbv zeta.
  destruct (parakeet_segments_degrade
              (mkNemoResult
                 (Some (mkTimeStamps
                          [mkSegStamp (Some 0%Q) (Some 2%Q) (Some " hello there ");
                           mkSegStamp None None None]
                          [mkWord (Some "hello") (Some 0%Q) (Some 1%Q)]))
                 (Some "hello there")) []) as (_ & Hstamps & _).
  destruct (Hstamps _ eq_refl ltac:(discriminate)) as (_ & Hs & He).
  destruct (parakeet_segments_degrade (mkNemoResult None (Some " hi ")) [])
    as (_ & _ & Htext & _).
  split; [exact Hs|]. split; [exact He|].
  exact (Htext I " hi " eq_refl ltac:(discriminate)).
Defined.

(** ** Merging again *)

Lemma filter_all_true {A : Type} (p : A -> bool) (l : list A) :
  List.Forall (fun x => p x = true) l -> List.filter p l = l.
Proof.
  induction 1 as [|x l Hx _ IH]; simpl; [reflexivity|]. now rewrite Hx, IH.
Qed.

(** Sorting an ascending list changes nothing. *)
Lemma sort_by_ascending_id {A : Type} (key : A -> Q) (l : list A) :
  ascending key l -> sort_by key l = l.
Proof.
  intros H. apply (stable_sort_unique key l); [apply sort_by_stable|].
  split; [exact H|reflexivity].
Qed.

Lemma merge_channels_fixed (l : list Segment) :
  ascending start l -> List.Forall (fun s => nonblank s = true) l ->
  merge_channels l [] = l /\ merge_channels [] l = l.
Proof.
  intros Ha Hn. rewrite !merge_channels_eq, List.app_nil_r. simpl.
  rewrite (sort_by_ascending_id start l Ha). split; now apply filter_all_true.
Qed.

(** A merged list is a fixed point of the merge: merging it again, with
    nothing on the other channel, returns it unchanged; and the merge
    never has more segments than its two inputs together, and has all of
    them when no input text is blank. *)
Theorem merge_channels_idempotent (mic_segments sys_segments : list Segment) :
  let merged := merge_channels mic_segments sys_segments in
  merge_channels merged [] = merged
  /\ merge_channels [] merged = merged
  /\ (length merged <= length mic_segments + length sys_segments)%nat
  /\ (List.Forall (fun s => nonblank s = true) (mic_segments ++ sys_segments) ->
      length merged = (length mic_segments + length sys_segments)%nat).
Proof.
  cbv zeta.
  assert (Hfix : merge_channels (merge_channels mic_segments sys_segments) []
                 = merge_channels mic_segments sys_segments
                 /\ merge_channels [] (merge_channels mic_segments sys_segments)
                    = merge_channels mic_segments sys_segments).
  { apply merge_channels_fixed.
    - apply (merge_channels_stable mic_segments sys_segments).
    - apply List.Forall_forall. intros s Hs.
      now apply merge_channels_In in Hs. }
  destruct Hfix as [H1 H2]. split; [exact H1|]. split; [exact H2|].
  rewrite merge_channels_eq, <- List.length_app.
  rewrite <- (Permutation_length (sort_by_perm start (mic_segments ++ sys_segments))).
  split.
  - apply List.filter_length_le.
  - intros Hall. rewrite filter_all_true; [reflexivity|].
    apply List.Forall_forall. intros s Hs. rewrite List.Forall_forall in Hall.
    apply Hall. eapply Permutation_in; [apply sort_by_perm|exact Hs].
Qed.

(** ** Echo suppression: when a frame is gated and by how much *)

Section GateFacts.
Local Open Scope R_scope.






End GateFacts.



(** ** Echo suppression: what the cleaned signal is *)

Section CleanedFacts.
Local Open Scope R_scope.







End CleanedFacts.



(** ** Channel transcription with parakeet as the primary *)

(** With primary "parakeet": a parakeet run that returns is the answer,
    tagged, and whisper is not called; an exception of parakeet outside
    [Exception] (a [KeyboardInterrupt]) is not caught: it reaches the
    caller and whisper is not called. *)
Theorem transcribe_channel_parakeet_primary (env : Env) (audio_path label : string)
  (w : World) :
  (forall output, parakeet_engine env audio_path = Return output ->
     transcribe_channel env "parakeet" audio_path label w
     = (Return (List.map (set_speaker label) (parakeet_segments output)),
        mkWorld (files w) (calls w ++ [(Parakeet, audio_path)])))
  /\ (forall e, parakeet_engine env audio_path = Raise e -> is_Exception e = false ->
        transcribe_channel env "parakeet" audio_path label w
        = (Raise e, mkWorld (files w) (calls w ++ [(Parakeet, audio_path)]))).
Proof.
  split.
  - intros output Ho. unfold transcribe_channel.
    change (String.eqb "parakeet" "parakeet") with true. cbv iota.
    unfold bind at 1. unfold try_except.
    rewrite (transcribe_parakeet_run env audio_path w), Ho. reflexivity.
  - intros e He Hc. unfold transcribe_channel.
    change (String.eqb "parakeet" "parakeet") with true. cbv iota.
    unfold bind at 1. unfold try_except.
    rewrite (transcribe_parakeet_run env audio_path w), He. simpl outcome_map.
    cbv iota. rewrite Hc. reflexivity.
Qed.

(** Parakeet hears one sentence and whisper would fail: whisper is not
    asked.  Parakeet is interrupted: no fallback. *)
Lemma transcribe_channel_parakeet_primary_witness :
  let heard := mkNemoResult
                 (Some (mkTimeStamps [mkSegStamp (Some 0%Q) (Some 2%Q) (Some " hello ")] []))
                 (Some "hello") in
  let env_ok := mkEnv (fun _ => Return [heard])
                      (fun _ => Raise (Exception "model not found"))
                      (fun _ suffix dir => dir +:+ "/tmp" +:+ suffix)
                      (fun _ => false) (fun _ => false) (fun _ => false)
                      (fun t => full_text t) in
  let env_int := mkEnv (fun _ => Raise (BaseException "KeyboardInterrupt"))
                       (fun _ => Return ([], "en"))
                       (fun _ suffix dir => dir +:+ "/tmp" +:+ suffix)
                       (fun _ => false) (fun _ => false) (fun _ => false)
                       (fun t => full_text t) in
  transcribe_channel env_ok "parakeet" "s/mic.wav" "Me" (mkWorld ∅ [])
  = (Return [mkSegment "Me" 0 2 "hello" ""], mkWorld ∅ [(Parakeet, "s/mic.wav")])
  /\ transcribe_channel env_int "parakeet" "s/mic.wav" "Me" (mkWorld ∅ [])
     = (Raise (BaseException "KeyboardInterrupt"),
        mkWorld ∅ [(Parakeet, "s/mic.wav")]).
Proof.
  cbv zeta. split.
  - exact (proj1 (transcribe_channel_parakeet_primary
                    (mkEnv (fun _ => Return [mkNemoResult
                              (Some (mkTimeStamps
                                       [mkSegStamp (Some 0%Q) (Some 2%Q) (Some " hello ")] []))
                              (Some "hello")])
                           (fun _ => Raise (Exception "model not found"))
                           (fun _ suffix dir => dir +:+ "/tmp" +:+ suffix)
                           (fun _ => false) (fun _ => false) (fun _ => false)
                           (fun t => full_text t))
                    "s/mic.wav" "Me" (mkWorld ∅ [])) _ eq_refl).
  - exact (proj2 (transcribe_channel_parakeet_primary
                    (mkEnv (fun _ => Raise (BaseException "KeyboardInterrupt"))
                           (fun _ => Return ([], "en"))
                           (fun _ suffix dir => dir +:+ "/tmp" +:+ suffix)
                           (fun _ => false) (fun _ => false) (fun _ => false)
                           (fun t => full_text t))
                    "s/mic.wav" "Me" (mkWorld ∅ [])) _ eq_refl eq_refl).
Defined.

(** ** The pipeline, case by case *)

Section PipelineCases.
Context (env : Env).

(** [_remove_echo] either raises an [Exception] and changes nothing, or
    returns the name [mktemp] picked with the cleaned audio written
    there. *)
Lemma remove_echo_outcome (mic_path sys_path : string) (w : World) :
  let clean_path := mktemp env (files w) "_clean.wav" (PyPath.parent mic_path) in
  (exists e, _remove_echo env mic_path sys_path w = (Raise e, w)
             /\ is_Exception e = true)
  \/ (exists sr data cleaned,
        files w !! mic_path = Some (Audio sr data)
        /\ _remove_echo env mic_path sys_path w
           = (Return clean_path,
              set_files <[clean_path := Audio sr (Mono cleaned)]> w)).
Proof.
  cbv zeta. unfold _remove_echo, bind, sf_read, raise.
  destruct (files w !! mic_path) as [[msr md|?]|]; try (left; eauto; fail).
  destruct (files w !! sys_path) as [[ssr sd|?]|]; try (left; eauto; fail).
  cbn [fst snd].
  destruct (Echo.remove_echo _ _ _) as [r|]; [|left; eauto].
  unfold sf_write, ret.
  destruct (open_denied env _ || write_denied env _); [left; eauto|].
  right. exists msr, md, (Echo.cleaned r). split; reflexivity.
Qed.

(** A returned channel transcription: the engine's segments, stripped,
    each tagged with the label. *)
Lemma transcribe_channel_Return (primary audio_path label : string) (w : World)
  (segs : list Segment) :
  fst (transcribe_channel env primary audio_path label w) = Return segs ->
  List.Forall (fun s => speaker s = label /\ PyStr.strip (text s) = text s) segs.
Proof.
  assert (Htag : forall lang raw,
             List.Forall (fun s => PyStr.strip (text s) = text s
                                   /\ speaker s = EmptyString /\ language s = lang) raw ->
             List.Forall (fun s => speaker s = label /\ PyStr.strip (text s) = text s)
                         (List.map (set_speaker label) raw)).
  { intros lang raw H. apply List.Forall_map. eapply List.Forall_impl; [|exact H].
    intros s (Hs & _). split; [reflexivity|exact Hs]. }
  unfold transcribe_channel, bind, try_except, ret.
  destruct (String.eqb primary "parakeet").
  - rewrite transcribe_parakeet_run.
    destruct (parakeet_engine env audio_path) as [out|e]; simpl.
    + intros H. injection H as <-. eapply Htag, parakeet_segments_fresh.
    + destruct (is_Exception e); [|discriminate].
      rewrite transcribe_whisper_run.
      destruct (whisper_engine env audio_path) as [r|e']; simpl; [|discriminate].
      intros H. injection H as <-. eapply Htag, whisper_segments_fresh.
  - assert (Hif : (if String.eqb primary "whisper"
                   then _transcribe_whisper env audio_path
                   else _transcribe_whisper env audio_path)
                  = _transcribe_whisper env audio_path)
      by (destruct (String.eqb primary "whisper"); reflexivity).
    rewrite Hif, transcribe_whisper_run.
    destruct (whisper_engine env audio_path) as [r|e']; simpl; [|discriminate].
    intros H. injection H as <-. eapply Htag, whisper_segments_fresh.
Qed.

(** The pipeline after the echo step, with [clean_mic_path] the path it
    transcribes the mic channel from and [w1] the world at that point:
    either a channel transcription raises and the files stay as in [w1],
    or both return, the transcript of the merge is returned, and the
    files are those of [w1] with [clean_mic_path] unlinked when it is not
    the mic path and the unlink is not refused. *)
Lemma transcribe_meeting_cases (primary : string) (elapsed : Q)
  (mic_path sys_path clean_mic_path : string) (w w1 : World) :
  try_except (_remove_echo env mic_path sys_path) is_Exception
             (fun _ => ret mic_path) w = (Return clean_mic_path, w1) ->
  let run := transcribe_meeting env primary elapsed mic_path sys_path w in
  (exists e wf, run = (Raise e, wf) /\ files wf = files w1)
  \/ (exists mic_segments sys_segments w2 w3 wf,
        transcribe_channel env primary clean_mic_path "Me" w1 = (Return mic_segments, w2)
        /\ transcribe_channel env primary sys_path "Them" w2 = (Return sys_segments, w3)
        /\ run = (Return (build_transcript primary elapsed
                            (merge_channels mic_segments sys_segments)), wf)
        /\ calls wf = calls w3
        /\ files wf
           = if negb (String.eqb clean_mic_path mic_path)
                && negb (unlink_denied env clean_mic_path)
             then delete clean_mic_path (files w1) else files w1).
Proof.
  intros Hstep. cbv zeta.
  pose proof (transcribe_channel_files env primary clean_mic_path "Me" w1) as Hf1.
  destruct (transcribe_channel env primary clean_mic_path "Me" w1) as [[ms|e] w2] eqn:E1;
    cbn [fst snd] in Hf1.
  2:{ left. exists e, w2. split; [|exact Hf1].
      unfold transcribe_meeting, bind. now rewrite Hstep, E1. }
  pose proof (transcribe_channel_files env primary sys_path "Them" w2) as Hf2.
  destruct (transcribe_channel env primary sys_path "Them" w2) as [[ss|e] w3] eqn:E2;
    cbn [fst snd] in Hf2.
  2:{ left. exists e, w3. split; [|congruence].
      unfold transcribe_meeting, bind. now rewrite Hstep, E1, E2. }
  right. exists ms, ss, w2, w3.
  assert (Hrun : transcribe_meeting env primary elapsed mic_path sys_path w
                 = (Return (build_transcript primary elapsed (merge_channels ms ss)),
                    if negb (String.eqb clean_mic_path mic_path)
                       && negb (unlink_denied env clean_mic_path)
                    then set_files (delete clean_mic_path) w3 else w3)).
  { unfold transcribe_meeting, bind. rewrite Hstep, E1, E2.
    unfold try_except, os_unlink, ret.
    destruct (negb (String.eqb clean_mic_path mic_path)); cbn [andb]; [|reflexivity].
    destruct (files w3 !! clean_mic_path) as [c|] eqn:Hc.
    - destruct (unlink_denied env clean_mic_path); reflexivity.
    - cbn [is_OSError]. destruct (unlink_denied env clean_mic_path); cbn [negb];
        [reflexivity|].
      destruct w3 as [f3 c3]. unfold set_files. cbn [files calls] in *.
      now rewrite delete_id. }
  eexists. split; [reflexivity|]. split; [exact E2|]. split; [exact Hrun|].
  destruct (negb (String.eqb clean_mic_path mic_path)
            && negb (unlink_denied env clean_mic_path)).
  - unfold set_files. cbn [files calls]. split; [reflexivity|congruence].
  - split; [reflexivity|congruence].
Qed.

(** The echo step of [transcribe_meeting] always hands a path on. *)
Lemma echo_step_outcome (mic_path sys_path : string) (w : World) :
  let clean_path := mktemp env (files w) "_clean.wav" (PyPath.parent mic_path) in
  try_except (_remove_echo env mic_path sys_path) is_Exception
             (fun _ => ret mic_path) w = (Return mic_path, w)
  \/ (exists c, files w !! mic_path = Some c)
     /\ exists a,
          try_except (_remove_echo env mic_path sys_path) is_Exception
                     (fun _ => ret mic_path) w
          = (Return clean_path, set_files <[clean_path := a]> w).
Proof.
  cbv zeta. unfold try_except.
  destruct (remove_echo_outcome mic_path sys_path w)
    as [(e & -> & ->)|(sr & data & cl & Hm & ->)].
  - left. reflexivity.
  - right. split; eauto.
Qed.

End PipelineCases.




(** Every transcript [transcribe_meeting] returns: each segment is tagged
    "Me" or "Them" and has a stripped, non-empty text; the segments ascend
    by start; [num_segments] is their number; and the transcript records
    the configured primary and the elapsed time. *)
Theorem transcribe_meeting_result_wellformed (env : Env) (primary : string)
  (elapsed : Q) (mic_path sys_path : string) (w : World) (t : Transcript) :
  fst (transcribe_meeting env primary elapsed mic_path sys_path w) = Return t ->
  List.Forall (fun s => (speaker s = "Me" \/ speaker s = "Them")
                        /\ PyStr.strip (text s) = text s
                        /\ text s <> EmptyString)
              (segments t)
  /\ ascending start (segments t)
  /\ num_segments t = length (segments t)
  /\ model_used t = primary
  /\ processing_time t = elapsed.
Proof.
  intros Ht.
  assert (Hcase : exists clean_mic_path w1,
             try_except (_remove_echo env mic_path sys_path) is_Exception
                        (fun _ => ret mic_path) w = (Return clean_mic_path, w1)).
  { destruct (echo_step_outcome env mic_path sys_path w) as [H|[_ [a H]]]; eauto. }
  destruct Hcase as (cp & w1 & Hstep).
  destruct (transcribe_meeting_cases env primary elapsed mic_path sys_path cp w w1 Hstep)
    as [(e1 & wf & Hrun & _)|(ms & ss & w2 & w3 & wf & E1 & E2 & Hrun & _ & _)];
    rewrite Hrun in Ht; cbn [fst] in Ht; [discriminate|].
  injection Ht as <-. unfold build_transcript.
  cbn [segments num_segments model_used processing_time].
  split; [|split; [apply (merge_channels_stable ms ss)|auto]].
  pose proof (transcribe_channel_Return env primary cp "Me" w1 ms) as Hme.
  pose proof (transcribe_channel_Return env primary sys_path "Them" w2 ss) as Hthem.
  rewrite E1 in Hme. rewrite E2 in Hthem. specialize (Hme eq_refl).
  specialize (Hthem eq_refl). rewrite List.Forall_forall in Hme, Hthem.
  apply List.Forall_forall. intros s Hs.
  pose proof (merged_text_not_blank ms ss) as Hnb. rewrite List.Forall_forall in Hnb.
  destruct (Hnb s Hs) as (_ & Hne & _).
  apply merge_channels_In in Hs. destruct Hs as [[Hin|Hin] _].
  - destruct (Hme s Hin) as [H1 H2]. auto.
  - destruct (Hthem s Hin) as [H1 H2]. auto.
Qed.

(** With no recording on disk and whisper answering, the transcript has
    the two tagged segments. *)
Lemma transcribe_meeting_result_wellformed_witness :
  let env := mkEnv (fun _ => Return [])
                   (fun p => Return ([mkWhisperSegment 0 1 (" heard " +:+ p)], "en"))
                   (fun _ suffix dir => dir +:+ "/tmpk3x" +:+ suffix)
                   (fun _ => false) (fun _ => false) (fun _ => false)
                   (fun t => full_text t) in
  let t := build_transcript "whisper" 1
             [mkSegment "Me" 0 1 "heard s/mic.wav" "en";
              mkSegment "Them" 0 1 "heard s/system.wav" "en"] in
  fst (transcribe_meeting env "whisper" 1 "s/mic.wav" "s/system.wav" (mkWorld ∅ []))
  = Return t
  /\ ascending start (segments t)
  /\ num_segments t = 2%nat.
Proof.
  cbv zeta.
  assert (Hrun : fst (transcribe_meeting
                        (mkEnv (fun _ => Return [])
                               (fun p => Return ([mkWhisperSegment 0 1 (" heard " +:+ p)], "en"))
                               (fun _ suffix dir => dir +:+ "/tmpk3x" +:+ suffix)
                               (fun _ => false) (fun _ => false) (fun _ => false)
                               (fun t => full_text t))
                        "whisper" 1 "s/mic.wav" "s/system.wav" (mkWorld ∅ []))
                 = Return (build_transcript "whisper" 1
                             [mkSegment "Me" 0 1 "heard s/mic.wav" "en";
                              mkSegment "Them" 0 1 "heard s/system.wav" "en"]))
    by reflexivity.
  split; [exact Hrun|].
  destruct (transcribe_meeting_result_wellformed _ _ _ _ _ _ _ Hrun)
    as (_ & Hasc & Hnum & _).
  split; [exact Hasc|exact Hnum].
Defined.


(** ** Saving again *)

(** A save on which nothing is refused erases what an earlier save of the
    same output path left, whatever that save wrote and wherever it
    stopped: the files are those the later save alone would have made,
    with the JSON and the markdown of the later transcript. *)
Theorem save_transcript_retry_overwrites (env1 env2 : Env) (r1 r2 : Transcript)
  (output_path json_path md_path : string) (w : World) :
  PyPath.with_suffix output_path ".json" = Some json_path ->
  PyPath.with_suffix output_path ".md" = Some md_path ->
  open_denied env2 json_path || write_denied env2 json_path
  || open_denied env2 md_path || write_denied env2 md_path = false ->
  let earlier := snd (save_transcript env1 r1 output_path w) in
  let later := save_transcript env2 r2 output_path earlier in
  fst later = Return tt
  /\ files (snd later) = files (snd (save_transcript env2 r2 output_path w))
  /\ files (snd later) !! json_path = Some (Text (json_dumps env2 r2))
  /\ files (snd later) !! md_path = Some (Text (markdown_text r2)).
Proof.
  intros Hj Hm Hok. cbv zeta.
  pose proof (json_md_paths_differ _ _ _ Hj Hm) as Hne.
  apply orb_false_iff in Hok. destruct Hok as [Hok H4].
  apply orb_false_iff in Hok. destruct Hok as [Hok H3].
  apply orb_false_iff in Hok. destruct Hok as [H1 H2].
  rewrite (save_transcript_run env2 r2 output_path json_path md_path _ Hj Hm).
  rewrite (save_transcript_run env2 r2 output_path json_path md_path w Hj Hm).
  rewrite H1, H2, H3, H4. cbv zeta. cbn [fst snd].
  split; [reflexivity|].
  rewrite (save_transcript_run env1 r1 output_path json_path md_path w Hj Hm).
  destruct w as [f c].
  split; [|split].
  - destruct (open_denied env1 json_path), (write_denied env1 json_path),
      (open_denied env1 md_path), (write_denied env1 md_path);
      cbv zeta; unfold set_files; cbn [snd files calls];
      apply map_eq; intros k;
      destruct (decide (md_path = k)) as [<-|Hk1];
      rewrite ?lookup_insert_eq; try reflexivity;
      rewrite !(lookup_insert_ne _ md_path k) by exact Hk1;
      destruct (decide (json_path = k)) as [<-|Hk2];
      rewrite ?lookup_insert_eq; try reflexivity;
      rewrite !(lookup_insert_ne _ json_path k) by exact Hk2;
      rewrite ?(lookup_insert_ne _ md_path k) by exact Hk1;
      rewrite ?(lookup_insert_ne _ json_path k) by exact Hk2;
      reflexivity.
  - unfold set_files. cbn [files].
    rewrite lookup_insert_ne by congruence. apply lookup_insert_eq.
  - unfold set_files. cbn [files]. apply lookup_insert_eq.
Qed.

(** A first save stops at the markdown file, a second one goes through. *)
Lemma save_transcript_retry_overwrites_witness :
  let env1 := mkEnv (fun _ => Return []) (fun _ => Return ([], ""))
                    (fun _ suffix dir => dir +:+ "/tmp" +:+ suffix)
                    (fun p => String.eqb p "s/transcript.md")
                    (fun _ => false) (fun _ => false)
                    (fun t => full_text t) in
  let env2 := mkEnv (fun _ => Return []) (fun _ => Return ([], ""))
                    (fun _ suffix dir => dir +:+ "/tmp" +:+ suffix)
                    (fun _ => false) (fun _ => false) (fun _ => false)
                    (fun t => full_text t) in
  let r1 := build_transcript "whisper" 1 [mkSegment "Me" 0 1 "first" ""] in
  let r2 := build_transcript "whisper" 1 [mkSegment "Me" 0 1 "second" ""] in
  let earlier := snd (save_transcript env1 r1 "s/transcript" (mkWorld ∅ [])) in
  files earlier !! "s/transcript.md" = None
  /\ files (snd (save_transcript env2 r2 "s/transcript" earlier)) !! "s/transcript.json"
     = Some (Text "**Me** : second")
  /\ files (snd (save_transcript env2 r2 "s/transcript" earlier)) !! "s/transcript.md"
     = Some (Text (markdown_text r2)).
Proof.
  cbv zeta. split; [vm_compute; reflexivity|].
  destruct (save_transcript_retry_overwrites
              (mkEnv (fun _ => Return []) (fun _ => Return ([], ""))
                     (fun _ suffix dir => dir +:+ "/tmp" +:+ suffix)
                     (fun p => String.eqb p "s/transcript.md")
                     (fun _ => false) (fun _ => false)
                     (fun t => full_text t))
              (mkEnv (fun _ => Return []) (fun _ => Return ([], ""))
                     (fun _ suffix dir => dir +:+ "/tmp" +:+ suffix)
                     (fun _ => false) (fun _ => false) (fun _ => false)
                     (fun t => full_text t))
              (build_transcript "whisper" 1 [mkSegment "Me" 0 1 "first" ""])
              (build_transcript "whisper" 1 [mkSegment "Me" 0 1 "second" ""])
              "s/transcript" "s/transcript.json" "s/transcript.md" (mkWorld ∅ [])
              eq_refl eq_refl eq_refl) as (_ & _ & Hjson & Hmd).
  split; [exact Hjson|exact Hmd].
Defined.

(** ** The command line *)

Section PathFacts.

Lemma rsplit_no_sep (name : string) :
  PyStr.contains "/" name = false -> PyPath.rsplit "/" name = None.
Proof.
  induction name as [|d name IH]; [reflexivity|].
  cbn [PyStr.contains PyPath.rsplit]. intros H.
  apply orb_false_iff in H. destruct H as [Hd Hn].
  rewrite (IH Hn). rewrite Ascii.eqb_sym, Hd. reflexivity.
Qed.

Lemma rsplit_after_sep (a name : string) :
  PyStr.contains "/" name = false ->
  PyPath.rsplit "/" (a +:+ "/" +:+ name) = Some (a, name).
Proof.
  intros Hn. induction a as [|d a IH].
  - change (PyPath.rsplit "/" (String "/" name) = Some (EmptyString, name)).
    cbn [PyPath.rsplit]. now rewrite (rsplit_no_sep name Hn).
  - change (PyPath.rsplit "/" (String d (a +:+ "/" +:+ name)) = Some (String d a, name)).
    cbn [PyPath.rsplit]. now rewrite IH.
Qed.

Lemma split_name_in_dir (pre name : string) :
  is_dir_prefix pre -> PyStr.contains "/" name = false ->
  PyPath.split_name (pre +:+ name) = (pre, name).
Proof.
  intros [->|[a ->]] Hn; unfold PyPath.split_name.
  - change (EmptyString +:+ name) with name. now rewrite (rsplit_no_sep name Hn).
  - rewrite append_assoc'. now rewrite (rsplit_after_sep a name Hn).
Qed.

Lemma with_suffix_in_dir (pre name suffix : string) :
  is_dir_prefix pre -> PyStr.contains "/" name = false ->
  PyStr.truthy name = true ->
  PyPath.with_suffix (pre +:+ name) suffix
  = Some (pre +:+ PyPath.stem name +:+ suffix).
Proof.
  intros Hp Hn Ht. unfold PyPath.with_suffix.
  rewrite (split_name_in_dir pre name Hp Hn). now rewrite Ht.
Qed.

Lemma parent_in_dir (a name : string) :
  PyStr.contains "/" name = false ->
  PyPath.parent (a +:+ "/" +:+ name) = match a with EmptyString => "/" | _ => a end.
Proof.
  intros Hn. unfold PyPath.parent. now rewrite (rsplit_after_sep a name Hn).
Qed.

Lemma splitroot_root (s : string) :
  fst (Path.splitroot s) = EmptyString \/ fst (Path.splitroot s) = "/"
  \/ fst (Path.splitroot s) = "//".
Proof.
  unfold Path.splitroot. destruct s as [|c s]; [now left|].
  destruct (Ascii.eqb c "/"); [|now left].
  destruct (Nat.eqb _ 2); cbn [fst]; auto.
Qed.

Lemma of_str_root (s : string) :
  Path.root (Path.of_str s) = EmptyString \/ Path.root (Path.of_str s) = "/"
  \/ Path.root (Path.of_str s) = "//".
Proof.
  unfold Path.of_str. pose proof (splitroot_root s) as H.
  destruct (Path.splitroot s) as [r rel]. exact H.
Qed.

Lemma join_snoc (names : list string) (name : string) :
  PyStr.join "/" (names ++ [name]) = dirs names +:+ name.
Proof.
  induction names as [|x names IH]; [reflexivity|].
  change (PyStr.join "/" (x :: (names ++ [name]))
          = (x +:+ "/" +:+ dirs names) +:+ name).
  destruct (names ++ [name]) as [|y l] eqn:E; [now destruct names|].
  change (PyStr.join "/" (x :: y :: l)) with (x +:+ "/" +:+ PyStr.join "/" (y :: l)).
  rewrite IH, !append_assoc'. reflexivity.
Qed.

Lemma dirs_prefix (names : list string) :
  names <> [] -> exists a, dirs names = a +:+ "/".
Proof.
  induction names as [|x names IH]; [congruence|]. intros _.
  destruct names as [|y names].
  - exists x. reflexivity.
  - destruct IH as [a Ha]; [discriminate|].
    exists (x +:+ "/" +:+ a).
    change (dirs (x :: y :: names)) with (x +:+ "/" +:+ dirs (y :: names)).
    rewrite Ha, !append_assoc'. reflexivity.
Qed.

Lemma append_empty (a b : string) : a +:+ b = EmptyString -> b = EmptyString.
Proof. destruct a; [tauto|discriminate]. Qed.

(** The paths [cli] makes from its argument: a directory prefix followed
    by the name. *)
Lemma session_paths (arg : string) :
  exists pre, is_dir_prefix pre
    /\ forall name, Path.of_str name = Path.mk EmptyString [name] ->
         Path.str (Path.div (Path.of_str arg) name) = pre +:+ name.
Proof.
  pose proof (of_str_root arg) as Hroot.
  destruct (Path.of_str arg) as [r names]. cbn [Path.root] in Hroot.
  exists (r +:+ dirs names). split.
  - destruct names as [|x names].
    + destruct Hroot as [->|[->| ->]]; [now left|right..].
      * now exists EmptyString.
      * now exists "/".
    + right. destruct (dirs_prefix (x :: names)) as [a Ha]; [discriminate|].
      exists (r +:+ a). now rewrite Ha, append_assoc'.
  - intros name Hname. unfold Path.div. rewrite Hname.
    cbn [Path.root Path.parts PyStr.truthy]. unfold Path.str.
    cbn [Path.root Path.parts]. rewrite join_snoc, <- append_assoc'.
    destruct ((r +:+ dirs names) +:+ name) eqn:E; [|reflexivity].
    apply append_empty in E. subst name. discriminate Hname.
Qed.

End PathFacts.

Section CliFacts.
Context (env : Env).

Lemma transcribe_meeting_frame (primary : string) (elapsed : Q)
  (mic_path sys_path : string) (w : World) (p : string) :
  p <> mktemp env (files w) "_clean.wav" (PyPath.parent mic_path) ->
  files (snd (transcribe_meeting env primary elapsed mic_path sys_path w)) !! p
  = files w !! p.
Proof.
  intros Hp.
  destruct (echo_step_outcome env mic_path sys_path w) as [Hstep|[_ [a Hstep]]].
  - destruct (transcribe_meeting_cases env primary elapsed mic_path sys_path
                mic_path w w Hstep)
      as [(e1 & wf & -> & Hf)|(ms & ss & w2 & w3 & wf & _ & _ & -> & _ & Hf)];
      cbn [fst snd]; rewrite Hf, ?String.eqb_refl; cbn [negb andb]; auto.
  - destruct (transcribe_meeting_cases env primary elapsed mic_path sys_path
                _ w _ Hstep)
      as [(e1 & wf & -> & Hf)|(ms & ss & w2 & w3 & wf & _ & _ & -> & _ & Hf)];
      cbn [fst snd]; rewrite Hf; unfold set_files; cbn [files].
    + now rewrite lookup_insert_ne.
    + destruct (_ && _).
      * now rewrite lookup_delete_ne, lookup_insert_ne.
      * now rewrite lookup_insert_ne.
Qed.

Lemma cli_run (prog arg : string) (rest : list string) (primary : string)
  (elapsed : Q) (w : World) :
  let session_dir := Path.of_str arg in
  let mic_path := Path.str (Path.div session_dir "mic.wav") in
  let sys_path := Path.str (Path.div session_dir "system.wav") in
  cli env (prog :: arg :: rest) primary elapsed w
  = match files w !! mic_path, files w !! sys_path with
    | Some _, Some _ =>
        (result <- transcribe_meeting env primary elapsed mic_path sys_path ;;
         save_transcript env result (Path.str (Path.div session_dir "transcript"))) w
    | _, _ => (Raise (BaseException "SystemExit(1)"), w)
    end.
Proof.
  cbv zeta. unfold cli, path_exists, sys_exit, raise. unfold bind at 1 2.
  destruct (files w !! Path.str (Path.div (Path.of_str arg) "mic.wav")),
    (files w !! Path.str (Path.div (Path.of_str arg) "system.wav")); reflexivity.
Qed.

(** The four paths of a session share their directory prefix, and the
    two transcript files are the output path with its suffix set. *)
Lemma cli_paths (arg : string) :
  let at_ name := Path.str (Path.div (Path.of_str arg) name) in
  exists pre,
    at_ "mic.wav" = pre +:+ "mic.wav"
    /\ at_ "system.wav" = pre +:+ "system.wav"
    /\ at_ "transcript.json" = pre +:+ "transcript.json"
    /\ at_ "transcript.md" = pre +:+ "transcript.md"
    /\ PyPath.with_suffix (at_ "transcript") ".json" = Some (at_ "transcript.json")
    /\ PyPath.with_suffix (at_ "transcript") ".md" = Some (at_ "transcript.md").
Proof.
  cbv zeta. destruct (session_paths arg) as (pre & Hpre & Hat). exists pre.
  rewrite !Hat by reflexivity.
  repeat split;
    apply (with_suffix_in_dir pre "transcript" _ Hpre eq_refl eq_refl).
Qed.

End CliFacts.

(** [cli] on a complete session when the transcription returns and no
    write is refused: it returns, the files transcript.json and
    transcript.md beside the recordings hold the JSON and the markdown of
    the transcript [transcribe_meeting] returned for mic.wav and
    system.wav, the engines were called as by that one run, every file
    other than the two transcripts and the temporary one is as before,
    and with a fresh temporary name so are the two recordings. *)
Theorem cli_writes_transcript (env : Env) (prog arg : string) (rest : list string)
  (primary : string) (elapsed : Q) (w : World) (t : Transcript) :
  let at_ name := Path.str (Path.div (Path.of_str arg) name) in
  let meeting :=
    transcribe_meeting env primary elapsed (at_ "mic.wav") (at_ "system.wav") w in
  let clean_path :=
    mktemp env (files w) "_clean.wav" (PyPath.parent (at_ "mic.wav")) in
  (exists c, files w !! at_ "mic.wav" = Some c) ->
  (exists c, files w !! at_ "system.wav" = Some c) ->
  fst meeting = Return t ->
  open_denied env (at_ "transcript.json") || write_denied env (at_ "transcript.json")
  || open_denied env (at_ "transcript.md") || write_denied env (at_ "transcript.md")
  = false ->
  let run := cli env (prog :: arg :: rest) primary elapsed w in
  fst run = Return tt
  /\ files (snd run) !! at_ "transcript.json" = Some (Text (json_dumps env t))
  /\ files (snd run) !! at_ "transcript.md" = Some (Text (markdown_text t))
  /\ calls (snd run) = calls (snd meeting)
  /\ (forall p, p <> at_ "transcript.json" -> p <> at_ "transcript.md" ->
        p <> clean_path -> files (snd run) !! p = files w !! p)
  /\ (files w !! clean_path = None ->
      files (snd run) !! at_ "mic.wav" = files w !! at_ "mic.wav"
      /\ files (snd run) !! at_ "system.wav" = files w !! at_ "system.wav").
Proof.
  cbv zeta. intros [cm Hmic] [cs Hsys] Ht Hden.
  destruct (cli_paths arg) as (pre & Em & Es & Ej & Ed & Hj & Hd).
  cbv zeta in Em, Es, Ej, Ed, Hj, Hd.
  apply orb_false_iff in Hden. destruct Hden as [Hden H4].
  apply orb_false_iff in Hden. destruct Hden as [Hden H3].
  apply orb_false_iff in Hden. destruct Hden as [H1 H2].
  pose proof (transcribe_meeting_frame env primary elapsed
                (Path.str (Path.div (Path.of_str arg) "mic.wav"))
                (Path.str (Path.div (Path.of_str arg) "system.wav")) w) as Hframe.
  rewrite cli_run. cbv zeta. rewrite Hmic, Hsys. unfold bind.
  destruct (transcribe_meeting env primary elapsed _ _ w) as [[t'|e] w1] eqn:Erun;
    cbn [fst snd] in Ht, Hframe |- *; [|discriminate].
  injection Ht as ->.
  rewrite (save_transcript_run env t _ _ _ w1 Hj Hd), H1, H2, H3, H4.
  cbv zeta. unfold set_files. cbn [fst snd files calls].
  assert (Hjd : Path.str (Path.div (Path.of_str arg) "transcript.json")
                <> Path.str (Path.div (Path.of_str arg) "transcript.md")).
  { rewrite Ej, Ed. intros E. apply append_inj_l in E. discriminate E. }
  split; [reflexivity|]. split; [|split; [|split; [|split]]].
  - rewrite lookup_insert_ne by congruence. apply lookup_insert_eq.
  - apply lookup_insert_eq.
  - reflexivity.
  - intros p Hpj Hpd Hpc. rewrite !lookup_insert_ne by congruence. now apply Hframe.
  - intros Hfresh.
    assert (Hne : forall name c,
               files w !! (pre +:+ name) = Some c ->
               name <> "transcript.json" -> name <> "transcript.md" ->
               <[Path.str (Path.div (Path.of_str arg) "transcript.md") :=
                   Text (markdown_text t)]>
                 (<[Path.str (Path.div (Path.of_str arg) "transcript.json") :=
                      Text (json_dumps env t)]> (files w1)) !! (pre +:+ name)
               = files w !! (pre +:+ name)).
    { intros name c Hc Nj Nd. rewrite Ej, Ed.
      rewrite !lookup_insert_ne
        by (intros E; apply append_inj_l in E; congruence).
      apply Hframe. intros E. rewrite <- E in Hfresh. congruence. }
    rewrite Em, Es in *. split.
    + rewrite (Hne "mic.wav" cm Hmic) by discriminate. exact Hmic.
    + rewrite (Hne "system.wav" cs Hsys) by discriminate. exact Hsys.
Qed.

(** The session directory given with a trailing slash, two short
    recordings, whisper answering: both transcript files are written and
    the mic recording is as before. *)
Lemma cli_writes_transcript_witness :
  let env := mkEnv (fun _ => Return [])
                   (fun p => Return ([mkWhisperSegment 0 1 (" heard " +:+ p)], "en"))
                   (fun _ suffix dir => dir +:+ "/tmpk3x" +:+ suffix)
                   (fun _ => false) (fun _ => false) (fun _ => false)
                   (fun t => full_text t) in
  let w := mkWorld (<["s/mic.wav" := Audio 16000 (Mono [0.5%R])]>
                      (<["s/system.wav" := Audio 16000 (Mono [0%R])]> ∅)) [] in
  let t := build_transcript "whisper" 1
             [mkSegment "Me" 0 1 "heard s/tmpk3x_clean.wav" "en";
              mkSegment "Them" 0 1 "heard s/system.wav" "en"] in
  let run := cli env ["transcriber.py"; "s/"] "whisper" 1 w in
  fst run = Return tt
  /\ files (snd run) !! "s/transcript.json" = Some (Text (full_text t))
  /\ files (snd run) !! "s/transcript.md" = Some (Text (markdown_text t))
  /\ files (snd run) !! "s/mic.wav" = Some (Audio 16000 (Mono [0.5%R])).
Proof.
  cbv zeta.
  set (env := mkEnv (fun _ => Return [])
                    (fun p => Return ([mkWhisperSegment 0 1 (" heard " +:+ p)], "en"))
                    (fun _ suffix dir => dir +:+ "/tmpk3x" +:+ suffix)
                    (fun _ => false) (fun _ => false) (fun _ => false)
                    (fun t => full_text t)).
  set (w := mkWorld (<["s/mic.wav" := Audio 16000 (Mono [0.5%R])]>
                       (<["s/system.wav" := Audio 16000 (Mono [0%R])]> ∅)) []).
  destruct (remove_echo_total [0.5%R] [0%R] 16000 ltac:(vm_compute; discriminate))
    as [r Hr].
  assert (Hmic : files w !! "s/mic.wav" = Some (Audio 16000 (Mono [0.5%R])))
    by apply lookup_insert_eq.
  assert (Hsys : files w !! "s/system.wav" = Some (Audio 16000 (Mono [0%R]))).
  { unfold w. cbn [files]. rewrite lookup_insert_ne by discriminate.
    apply lookup_insert_eq. }
  assert (Hfresh : files w !! "s/tmpk3x_clean.wav" = None).
  { unfold w. cbn [files]. rewrite !lookup_insert_ne by discriminate.
    apply lookup_empty. }
  assert (He : _remove_echo env "s/mic.wav" "s/system.wav" w
               = (Return "s/tmpk3x_clean.wav",
                  set_files <["s/tmpk3x_clean.wav" := Audio 16000 (Mono (Echo.cleaned r))]> w)).
  { apply (remove_echo_run env "s/mic.wav" "s/system.wav" w 16000 16000
             (Mono [0.5%R]) (Mono [0%R]) r Hmic Hsys Hr). reflexivity. }
  destruct (transcribe_meeting_returns env "whisper" 1 "s/mic.wav" "s/system.wav"
              "s/tmpk3x_clean.wav" w _ _ _ _ _ He ltac:(discriminate) eq_refl eq_refl)
    as [Hm _].
  destruct (cli_writes_transcript env "transcriber.py" "s/" [] "whisper" 1 w _
              (ex_intro _ _ Hmic) (ex_intro _ _ Hsys) Hm eq_refl)
    as (H1 & H2 & H3 & _ & _ & H6).
  split; [exact H1|]. split; [exact H2|]. split; [exact H3|].
  rewrite <- Hmic. exact (proj1 (H6 Hfresh)).
Defined.

(** [cli] writes no transcript without a transcription.  With no session
    directory on the command line, or with mic.wav or system.wav missing
    in it, it exits with [SystemExit(1)] before any file is touched or any
    engine called; an error of [transcribe_meeting] is the outcome of
    [cli] and nothing is saved; so a transcript file differs after the run
    only if both recordings were there and the transcription returned. *)
Theorem cli_no_transcript_without_transcription (env : Env) (argv : list string)
  (primary : string) (elapsed : Q) (w : World) :
  let run := cli env argv primary elapsed w in
  match argv with
  | _ :: arg :: _ =>
      let at_ name := Path.str (Path.div (Path.of_str arg) name) in
      let meeting :=
        transcribe_meeting env primary elapsed (at_ "mic.wav") (at_ "system.wav") w in
      let clean_path :=
        mktemp env (files w) "_clean.wav" (PyPath.parent (at_ "mic.wav")) in
      (files w !! at_ "mic.wav" = None \/ files w !! at_ "system.wav" = None ->
       run = (Raise (BaseException "SystemExit(1)"), w))
      /\ (forall cm cs e,
            files w !! at_ "mic.wav" = Some cm ->
            files w !! at_ "system.wav" = Some cs ->
            fst meeting = Raise e -> run = (Raise e, snd meeting))
      /\ (clean_path <> at_ "transcript.json" -> clean_path <> at_ "transcript.md" ->
          files (snd run) !! at_ "transcript.json" <> files w !! at_ "transcript.json"
          \/ files (snd run) !! at_ "transcript.md" <> files w !! at_ "transcript.md" ->
          (exists cm, files w !! at_ "mic.wav" = Some cm)
          /\ (exists cs, files w !! at_ "system.wav" = Some cs)
          /\ exists t, fst meeting = Return t)
  | _ => run = (Raise (BaseException "SystemExit(1)"), w)
  end.
Proof.
  cbv zeta. destruct argv as [|prog [|arg rest]]; [reflexivity..|].
  rewrite cli_run. cbv zeta.
  pose proof (transcribe_meeting_frame env primary elapsed
                (Path.str (Path.div (Path.of_str arg) "mic.wav"))
                (Path.str (Path.div (Path.of_str arg) "system.wav")) w) as Hframe.
  split; [|split].
  - intros [-> | Hs]; [reflexivity|]. rewrite Hs.
    now destruct (files w !! Path.str (Path.div (Path.of_str arg) "mic.wav")).
  - intros cm cs e -> -> He. unfold bind.
    destruct (transcribe_meeting env primary elapsed _ _ w) as [[t|e'] w1];
      cbn [fst snd] in He |- *; congruence.
  - intros Hcj Hcd Hchanged.
    destruct (files w !! Path.str (Path.div (Path.of_str arg) "mic.wav")) as [cm|];
      [|cbn [snd] in Hchanged; tauto].
    destruct (files w !! Path.str (Path.div (Path.of_str arg) "system.wav")) as [cs|];
      [|cbn [snd] in Hchanged; tauto].
    unfold bind in Hchanged.
    destruct (transcribe_meeting env primary elapsed _ _ w) as [[t|e'] w1];
      cbn [fst snd] in Hchanged, Hframe |- *; [repeat split; eexists; reflexivity|].
    rewrite !Hframe in Hchanged by congruence. tauto.
Qed.

(** ** Lazy loading of the models *)

(** A model that a loader returned is cached: the next call of the same
    loader returns the same model, calls no constructor and changes
    nothing, and a loader never touches the other model's cache.  A
    whisper load that raised leaves the cache empty, so the next call
    constructs again. *)
Theorem loaded_model_is_cached (lenv : LoadEnv) (self : Loaders) :
  (forall model self',
      _load_parakeet lenv self = (Return model, self') ->
      (forall lenv', _load_parakeet lenv' self' = (Return model, self'))
      /\ _parakeet_model self' = Some model
      /\ _whisper_model self' = _whisper_model self)
  /\ (forall model self',
        _load_whisper lenv self = (Return model, self') ->
        (forall lenv', _load_whisper lenv' self' = (Return model, self'))
        /\ _whisper_model self' = Some model
        /\ _parakeet_model self' = _parakeet_model self)
  /\ (forall e self',
        _load_whisper lenv self = (Raise e, self') ->
        _whisper_model self' = None
        /\ load_calls self'
           = load_calls self
             ++ [NewWhisperModel (whisper_model self) (whisper_device self)
                                 (whisper_compute self)]
        /\ forall lenv',
             load_calls (snd (_load_whisper lenv' self'))
             = load_calls self'
               ++ [NewWhisperModel (whisper_model self) (whisper_device self)
                                   (whisper_compute self)]).
Proof.
  split; [|split].
  - intros model self'. unfold _load_parakeet at 1.
    destruct (_parakeet_model self) as [m|] eqn:Ec.
    + intros H. injection H as <- <-.
      split; [|auto]. intros lenv'. unfold _load_parakeet. now rewrite Ec.
    + destruct (from_pretrained lenv (parakeet_model self)); [|discriminate].
      destruct (change_attention_model lenv); [|discriminate].
      intros H. injection H as <- <-. cbn. auto.
  - intros model self'. unfold _load_whisper at 1.
    destruct (_whisper_model self) as [m|] eqn:Ec.
    + intros H. injection H as <- <-.
      split; [|auto]. intros lenv'. unfold _load_whisper. now rewrite Ec.
    + destruct (new_whisper_model lenv _ _ _); [|discriminate].
      intros H. injection H as <- <-. cbn. auto.
  - intros e self'. unfold _load_whisper at 1.
    destruct (_whisper_model self) as [m|] eqn:Ec; [discriminate|].
    destruct (new_whisper_model lenv _ _ _); [discriminate|].
    intros H. injection H as <- <-. cbn [_whisper_model load_calls].
    split; [reflexivity|]. split; [reflexivity|].
    intros lenv'. unfold _load_whisper.
    cbn [_whisper_model load_calls whisper_model whisper_device whisper_compute
         parakeet_model _parakeet_model].
    now destruct (new_whisper_model lenv' _ _ _).
Qed.

(** The parakeet model is stored before its attention is configured: when
    [from_pretrained] returns and [change_attention_model] raises, the
    load raises, yet the model stays cached, and every later load returns
    it, on which no call of [change_attention_model] has returned, and
    calls nothing.  When [from_pretrained] itself raises, nothing is
    cached. *)
Theorem load_parakeet_keeps_unconfigured_model (lenv : LoadEnv) (self : Loaders)
  (e : PyError) :
  _parakeet_model self = None ->
  let first := _load_parakeet lenv self in
  (from_pretrained lenv (parakeet_model self) = Return tt ->
   change_attention_model lenv = Raise e ->
   fst first = Raise e
   /\ load_calls (snd first)
      = load_calls self ++ [FromPretrained (parakeet_model self); ChangeAttentionModel]
   /\ forall lenv',
        _load_parakeet lenv' (snd first)
        = (Return (mkParakeetModel (parakeet_model self) false), snd first))
  /\ (from_pretrained lenv (parakeet_model self) = Raise e ->
      fst first = Raise e /\ _parakeet_model (snd first) = None)
  /\ (forall model, fst first = Return model ->
      pm_local_attention model = true /\ pm_name model = parakeet_model self).
Proof.
  intros Hc. cbv zeta.
  assert (Hfirst : _load_parakeet lenv self
                   = match from_pretrained lenv (parakeet_model self) with
                     | Raise e' =>
                         (Raise e',
                          mkLoaders (parakeet_model self) (whisper_model self)
                            (whisper_device self) (whisper_compute self) None
                            (_whisper_model self)
                            (load_calls self ++ [FromPretrained (parakeet_model self)]))
                     | Return _ =>
                         match change_attention_model lenv with
                         | Raise e' =>
                             (Raise e',
                              mkLoaders (parakeet_model self) (whisper_model self)
                                (whisper_device self) (whisper_compute self)
                                (Some (mkParakeetModel (parakeet_model self) false))
                                (_whisper_model self)
                                ((load_calls self
                                  ++ [FromPretrained (parakeet_model self)])
                                 ++ [ChangeAttentionModel]))
                         | Return _ =>
                             (Return (mkParakeetModel (parakeet_model self) true),
                              mkLoaders (parakeet_model self) (whisper_model self)
                                (whisper_device self) (whisper_compute self)
                                (Some (mkParakeetModel (parakeet_model self) true))
                                (_whisper_model self)
                                ((load_calls self
                                  ++ [FromPretrained (parakeet_model self)])
                                 ++ [ChangeAttentionModel]))
                         end
                     end).
  { unfold _load_parakeet. now rewrite Hc. }
  rewrite Hfirst. clear Hfirst.
  split; [|split].
  - intros -> ->. cbn [fst snd load_calls].
    split; [reflexivity|]. split; [now rewrite <- app_assoc|].
    intros lenv'. reflexivity.
  - intros ->. cbn. auto.
  - intros model.
    destruct (from_pretrained lenv (parakeet_model self)); [|discriminate].
    destruct (change_attention_model lenv); [|discriminate].
    cbn [fst]. intros H. injection H as <-. auto.
Qed.

(** A fresh transcriber whose model downloads but cannot switch to local
    attention: the second load returns the unconfigured model. *)
Lemma load_parakeet_keeps_unconfigured_model_witness :
  let lenv := mkLoadEnv (fun _ => Return tt) (Raise (Exception "ValueError"))
                        (fun _ _ _ => Return tt) in
  let self := mkLoaders "nvidia/parakeet-tdt-0.6b-v3" "large-v3" "auto" "float16"
                        None None [] in
  let first := _load_parakeet lenv self in
  fst first = Raise (Exception "ValueError")
  /\ fst (_load_parakeet lenv (snd first))
     = Return (mkParakeetModel "nvidia/parakeet-tdt-0.6b-v3" false).
Proof.
  cbv zeta.
  destruct (load_parakeet_keeps_unconfigured_model
              (mkLoadEnv (fun _ => Return tt) (Raise (Exception "ValueError"))
                         (fun _ _ _ => Return tt))
              (mkLoaders "nvidia/parakeet-tdt-0.6b-v3" "large-v3" "auto" "float16"
                         None None [])
              (Exception "ValueError") eq_refl) as [H _].
  destruct (H eq_refl eq_refl) as (H1 & _ & H3).
  split; [exact H1|]. now rewrite H3.
Defined.
